(** * chat-realtime-server: presence, rooms and message routing

    A shallow embedding of the socket handlers of the chat server and the
    properties of its routing core.

    Two servers live in the repository:
    - the in-memory server ([index.js]): three global [Map]s ([users],
      [rooms], [messageHistory]) and one closure per socket holding
      [currentUser] and [currentRoom]. A second copy of it adds file
      uploads and a [fileData] field to the payloads and has the same
      handlers; an earlier one has neither rooms nor history;
    - the database-backed server: the same events, routed through the
      repositories ([UserRepository], [RoomRepository], [MessageRepository])
      and a [connectedUsers] map from user id to socket id. The repository
      classes are not among the sources; the handlers are stated over an
      interface of the methods they call.

    Handlers are pure functions: they take the inputs read from the
    environment (clock, random number), the socket closure and the server
    state, and return the new closure, the new state and the list of
    outbound events in emission order. The typing relays, [join_room] and
    [leave_room], which touch none of the three maps, are in a module of
    their own ([Relay]); [mark_as_read] only logs and is left out. Event
    fields are typed as the handlers destructure them ([to], [message],
    [roomId], [groupName], [query] are strings, [members] is an array of
    strings).

    Of the middleware ([middleware/auth.js]) the request limiter and the
    token check are embedded ([RateLimit], [Auth]). *)

From Stdlib Require Import String Ascii List ZArith NArith Lia Bool.
From stdpp Require Import base decidable option list strings gmap pretty.

Local Open Scope string_scope.
Local Open Scope list_scope.

(** ** JavaScript values used by the handlers *)

Module Js.

(** [s.startsWith(t)]. *)
Fixpoint startsWith (s t : string) {struct t} : bool :=
  match t, s with
  | EmptyString, _ => true
  | String _ _, EmptyString => false
  | String b t', String a s' =>
      if decide (a = b) then startsWith s' t' else false
  end.

(** [s.includes(t)]: [t] occurs in [s] at some position. *)
Fixpoint includes (s t : string) : bool :=
  startsWith s t ||
  match s with
  | EmptyString => false
  | String _ s' => includes s' t
  end.

(** *** [String.prototype.toLowerCase]

    The runtime lowers a string as a whole, by the Unicode case tables.
    A string is held here as its UTF-8 bytes, and the tables are followed
    for the characters of the ASCII range and for the sigma:
    - the letters [A]..[Z] (codes 65..90) move to [a]..[z];
    - a capital sigma becomes the final form [ς] when a cased letter comes
      before it and none comes after it, case-ignorable characters in
      between not counting, and [σ] otherwise;
    - every other character is kept.
    The runtime keeps only the characters that have no lower case: on text
    with letters other than these (accented letters, other alphabets) it
    folds where this definition does not. What is stated below about
    folding is stated for text of ASCII characters, where the two agree
    letter by letter; the sigma shows where lowering a whole string
    departs from lowering its letters. *)

(** The lower case of one character of the ASCII range. *)
Definition lower_char (c : ascii) : ascii :=
  let n := nat_of_ascii c in
  if (65 <=? n)%nat && (n <=? 90)%nat then ascii_of_nat (n + 32) else c.

(** A cased letter of the ASCII range: [A]..[Z] or [a]..[z]. *)
Definition cased_char (c : ascii) : bool :=
  let n := nat_of_ascii c in
  ((65 <=? n)%nat && (n <=? 90)%nat) || ((97 <=? n)%nat && (n <=? 122)%nat).

(** The case-ignorable characters of the ASCII range: the apostrophe, the
    full stop, the colon, the circumflex and the grave accent. *)
Definition case_ignorable (c : ascii) : bool :=
  bool_decide (nat_of_ascii c ∈ [39; 46; 58; 94; 96]%nat).

(** The text starts with a sigma, in one of its three forms. *)
Definition sigma_first (s : string) : bool :=
  startsWith s "Σ" || startsWith s "σ" || startsWith s "ς".

(** A cased letter follows, after any number of case-ignorable
    characters. *)
Fixpoint cased_follows (s : string) : bool :=
  match s with
  | EmptyString => false
  | String c s' =>
      if case_ignorable c then cased_follows s'
      else cased_char c || sigma_first s
  end.

(** The lower case of [s], where [after_cased] tells whether a cased
    letter comes before [s], case-ignorable characters apart. *)
Fixpoint lower_from (after_cased : bool) (s : string) : string :=
  match s with
  | EmptyString => EmptyString
  | String c s' =>
      if startsWith s "Σ" then
        match s' with
        | String _ s'' =>
            (if after_cased && negb (cased_follows s'') then "ς" else "σ")
            +:+ lower_from true s''
        | EmptyString => s
        end
      else if sigma_first s then
        match s' with
        | String d s'' => String c (String d (lower_from true s''))
        | EmptyString => s
        end
      else
        String (lower_char c)
          (lower_from (if case_ignorable c then after_cased else cased_char c)
             s')
  end.

Definition toLowerCase (s : string) : string := lower_from false s.

(** A name as the handlers hold it: [null] or a string. [currentUser] is
    [null] until the socket sends [set_username]. *)
Abbreviation Name := (option string).

(** Truthiness of a name in a condition ([currentUser && ...]): [null]
    and the empty string are falsy. *)
Definition truthy (n : Name) : bool :=
  match n with
  | None => false
  | Some s => negb (bool_decide (s = ""))
  end.

(** [x || null] on an optional string. *)
Definition or_null (x : option string) : option string :=
  match x with
  | Some s => if bool_decide (s = "") then None else Some s
  | None => None
  end.

(** [x || d] on an optional string. *)
Definition or_default (x : option string) (d : string) : string :=
  match x with
  | Some s => if bool_decide (s = "") then d else s
  | None => d
  end.

(** [arr.includes(x)]. *)
Definition array_includes {A} `{EqDecision A} (arr : list A) (x : A) : bool :=
  bool_decide (x ∈ arr).

End Js.

(** ** A [Map] with its insertion order

    [users] is iterated by [sendUserLists], so the order of its entries is
    part of the behaviour: [set] on a present key keeps its position, on a
    new key appends. *)

Module OMap.
Section omap.
Context {K V : Type} `{EqDecision K}.

Fixpoint get (k : K) (m : list (K * V)) : option V :=
  match m with
  | [] => None
  | (k', v) :: m' => if decide (k = k') then Some v else get k m'
  end.

Fixpoint set (k : K) (v : V) (m : list (K * V)) : list (K * V) :=
  match m with
  | [] => [(k, v)]
  | (k', v') :: m' =>
      if decide (k = k') then (k, v) :: m' else (k', v') :: set k v m'
  end.

Definition has (k : K) (m : list (K * V)) : bool :=
  match get k m with Some _ => true | None => false end.

Definition entries (m : list (K * V)) : list (K * V) := m.

Definition keys (m : list (K * V)) : list K := map fst m.
End omap.
End OMap.

(** ** The in-memory server ([index.js]) *)

Module InMemory.
Import Js.

Definition SocketId : Type := string.

(** [Date.now() + Math.random()]: the two summands, kept apart. *)
Definition MsgId : Type := (N * N)%type.

(** What a handler reads from the environment when it runs. *)
Record Clock := {
  now : N;                 (* Date.now() *)
  random : N;              (* Math.random(), as its mantissa *)
  localeTime : string;     (* new Date().toLocaleTimeString([], ...) *)
  isoString : string       (* new Date().toISOString() *)
}.

(** A value of [users]: [{ socketId, online, avatar, lastSeen }], and
    [status] once [update_status] has set it. *)
Record UserInfo := {
  socketId : SocketId;
  online : bool;
  avatar : option string;
  lastSeen : string;
  status : option string
}.

Inductive MsgType := private | group.

(** The message object built by [send_private] ([to] present) and by
    [send_group] ([roomId] present). *)
Record Payload := {
  id : MsgId;
  from : Name;
  to : option string;
  roomId : option string;
  message : string;
  timestamp : string;
  type : MsgType
}.

(** A value of [rooms]. *)
Record Room := {
  name : string;
  members : list Name;
  messages : list Payload;
  createdBy : Name;
  createdAt : string
}.

(** The three global maps. *)
Record Server := {
  users : list (Name * UserInfo);
  rooms : gmap string Room;
  messageHistory : gmap Name (list Payload)
}.

(** The closure of one connection. *)
Record Socket := {
  sid : SocketId;
  currentUser : Name;
  currentRoom : option string
}.

(** An element of a [user_list]. *)
Record UserEntry := {
  entry_username : Name;
  entry_online : bool;
  entry_lastSeen : string;
  entry_avatar : option string;
  entry_status : string
}.

Inductive Event :=
| message_history (msgs : list Payload)
| user_list (l : list UserEntry)
| receive_private (p : Payload)
| receive_group (p : Payload)
| message_sent (p : Payload)
| group_created (room : string) (groupName : string)
                (mems : list Name) (by_ : Name)
| search_results (msgs : list Payload).

(** [io.to(target).emit(ev)]; [socket.emit(ev)] is [Emit socket.id ev]. *)
Inductive Out := Emit (target : SocketId) (ev : Event).

Definition empty_server : Server :=
  {| users := []; rooms := ∅; messageHistory := ∅ |}.

Definition new_socket (s : SocketId) : Socket :=
  {| sid := s; currentUser := None; currentRoom := None |}.

Definition with_users (st : Server) (u : list (Name * UserInfo)) : Server :=
  {| users := u; rooms := rooms st; messageHistory := messageHistory st |}.

Definition with_rooms (st : Server) (r : gmap string Room) : Server :=
  {| users := users st; rooms := r; messageHistory := messageHistory st |}.

Definition with_history (st : Server) (h : gmap Name (list Payload)) : Server :=
  {| users := users st; rooms := rooms st; messageHistory := h |}.

(** [saveMessage(userId, message)], on [messageHistory]. *)
Definition saveMessage (userId : Name) (msg : Payload)
    (mh : gmap Name (list Payload)) : gmap Name (list Payload) :=
  let mh :=
    match mh !! userId with
    | Some _ => mh
    | None => <[userId := []]> mh
    end in
  let messages := default [] (mh !! userId) in
  let messages := messages ++ [msg] in
  let messages :=
    if (1000 <? length messages)%nat then tail messages else messages in
  <[userId := messages]> mh.

(** The object pushed into a [user_list] for one entry of [users]. *)
Definition user_entry (nm : Name) (info : UserInfo) : UserEntry :=
  {| entry_username := nm;
     entry_online := online info;
     entry_lastSeen := lastSeen info;
     entry_avatar := avatar info;
     entry_status := or_default (status info) "available" |}.

(** The list built for the viewer [username]. *)
Definition filteredUsers (us : list (Name * UserInfo)) (username : Name)
    : list UserEntry :=
  map (fun e => user_entry (fst e) (snd e))
      (filter (fun e => fst e ≠ username) (OMap.entries us)).

(** [sendUserLists()]: one [user_list] per entry of [users], in order. *)
Definition sendUserLists (st : Server) : list Out :=
  map (fun e => Emit (socketId (snd e))
                     (user_list (filteredUsers (users st) (fst e))))
      (OMap.entries (users st)).

(** [socket.on("set_username", ({ username, avatar }) => ...)] *)
Definition set_username (c : Clock) (username : string)
    (av : option string) (sk : Socket) (st : Server)
    : Socket * Server * list Out :=
  let sk' := {| sid := sid sk; currentUser := Some username;
                currentRoom := currentRoom sk |} in
  let st' := with_users st
    (OMap.set (Some username)
       {| socketId := sid sk; online := true; avatar := or_null av;
          lastSeen := isoString c; status := None |}
       (users st)) in
  let userMessages := default [] (messageHistory st' !! Some username) in
  (sk', st',
   Emit (sid sk) (message_history userMessages) :: sendUserLists st').

(** The delivery of [ev] to the user stored under [nm], when that user
    is marked online ([if (user?.online) io.to(user.socketId).emit]). *)
Definition emit_if_online (us : list (Name * UserInfo)) (nm : Name)
    (ev : Event) : list Out :=
  match OMap.get nm us with
  | Some u => if online u then [Emit (socketId u) ev] else []
  | None => []
  end.

(** [socket.on("send_private", ({ to, message }) => ...)] *)
Definition send_private (c : Clock) (to_ : string) (msg : string)
    (sk : Socket) (st : Server) : Socket * Server * list Out :=
  let payload :=
    {| id := (now c, random c); from := currentUser sk; to := Some to_;
       roomId := None; message := msg; timestamp := localeTime c;
       type := private |} in
  let mh := saveMessage (currentUser sk) payload (messageHistory st) in
  let mh := saveMessage (Some to_) payload mh in
  let st' := with_history st mh in
  (sk, st',
   emit_if_online (users st') (Some to_) (receive_private payload)
     ++ [Emit (sid sk) (message_sent payload)]).

(** [socket.on("send_group", ({ roomId, message }) => ...)] *)
Definition send_group (c : Clock) (room_id : string) (msg : string)
    (sk : Socket) (st : Server) : Socket * Server * list Out :=
  match rooms st !! room_id with
  | None => (sk, st, [])
  | Some room =>
      if negb (array_includes (members room) (currentUser sk))
      then (sk, st, [])
      else
        let payload :=
          {| id := (now c, random c); from := currentUser sk; to := None;
             roomId := Some room_id; message := msg;
             timestamp := localeTime c; type := group |} in
        let room' :=
          {| name := name room; members := members room;
             messages := messages room ++ [payload];
             createdBy := createdBy room; createdAt := createdAt room |} in
        let st' := with_rooms st (<[room_id := room']> (rooms st)) in
        (sk, st',
         flat_map (fun member =>
                     emit_if_online (users st') member (receive_group payload))
                  (members room'))
  end.

(** The id of a new group: [`group_${Date.now()}`]. *)
Definition group_id (c : Clock) : string := "group_" +:+ pretty (now c).

(** [socket.on("create_group", ({ groupName, members }) => ...)] *)
Definition create_group (c : Clock) (groupName : string)
    (mems : list string) (sk : Socket) (st : Server)
    : Socket * Server * list Out :=
  let room_id := group_id c in
  let allMembers := map Some mems ++ [currentUser sk] in
  let st' := with_rooms st
    (<[room_id := {| name := groupName; members := allMembers;
                     messages := []; createdBy := currentUser sk;
                     createdAt := isoString c |}]> (rooms st)) in
  (sk, st',
   flat_map (fun member =>
               emit_if_online (users st') member
                 (group_created room_id groupName allMembers (currentUser sk)))
            allMembers).

(** [socket.on("update_status", ({ status }) => ...)] *)
Definition update_status (new_status : string) (sk : Socket) (st : Server)
    : Socket * Server * list Out :=
  if truthy (currentUser sk) && OMap.has (currentUser sk) (users st) then
    match OMap.get (currentUser sk) (users st) with
    | Some user =>
        let user' :=
          {| socketId := socketId user; online := online user;
             avatar := avatar user; lastSeen := lastSeen user;
             status := Some new_status |} in
        let st' := with_users st (OMap.set (currentUser sk) user' (users st)) in
        (sk, st', sendUserLists st')
    | None => (sk, st, [])
    end
  else (sk, st, []).

(** [socket.on("search_messages", ({ query }) => ...)] *)
Definition search_messages (query : string) (sk : Socket) (st : Server)
    : Socket * Server * list Out :=
  let userMessages := default [] (messageHistory st !! currentUser sk) in
  let filteredMessages :=
    filter (fun msg => Is_true (includes (toLowerCase (message msg))
                                         (toLowerCase query)))
           userMessages in
  (sk, st, [Emit (sid sk) (search_results filteredMessages)]).

(** [socket.on("disconnect", () => ...)] *)
Definition disconnect (c : Clock) (sk : Socket) (st : Server)
    : Socket * Server * list Out :=
  if truthy (currentUser sk) && OMap.has (currentUser sk) (users st) then
    match OMap.get (currentUser sk) (users st) with
    | Some user =>
        let user' :=
          {| socketId := socketId user; online := false;
             avatar := avatar user; lastSeen := isoString c;
             status := status user |} in
        let st' := with_users st (OMap.set (currentUser sk) user' (users st)) in
        (sk, st', sendUserLists st')
    | None => (sk, st, [])
    end
  else (sk, st, []).

(** *** Running several connections

    The event loop handles one inbound event at a time. A world is the
    shared state together with the closure of every open connection. *)

Inductive Inbound :=
| SetUsername (username : string) (av : option string)
| SendPrivate (to_ : string) (msg : string)
| SendGroup (room_id : string) (msg : string)
| CreateGroup (groupName : string) (mems : list string)
| UpdateStatus (new_status : string)
| SearchMessages (query : string)
| Disconnect.

Record World := {
  server : Server;
  sockets : gmap SocketId Socket
}.

Definition empty_world : World := {| server := empty_server; sockets := ∅ |}.

Definition handle (c : Clock) (ev : Inbound) (sk : Socket) (st : Server)
    : Socket * Server * list Out :=
  match ev with
  | SetUsername username av => set_username c username av sk st
  | SendPrivate to_ msg => send_private c to_ msg sk st
  | SendGroup room_id msg => send_group c room_id msg sk st
  | CreateGroup groupName mems => create_group c groupName mems sk st
  | UpdateStatus new_status => update_status new_status sk st
  | SearchMessages query => search_messages query sk st
  | Disconnect => disconnect c sk st
  end.

(** One inbound event [ev] on the connection [s]; a connection seen for
    the first time starts from a fresh closure. *)
Definition step (w : World) (i : Clock * SocketId * Inbound) : World * list Out :=
  let '(c, s, ev) := i in
  let sk := default (new_socket s) (sockets w !! s) in
  let '(sk', st', outs) := handle c ev sk (server w) in
  ({| server := st'; sockets := <[s := sk']> (sockets w) |}, outs).

(** A sequence of inbound events, with the events emitted by the last. *)
Fixpoint run (w : World) (evs : list (Clock * SocketId * Inbound))
    : World * list Out :=
  match evs with
  | [] => (w, [])
  | [i] => step w i
  | i :: evs' => run (fst (step w i)) evs'
  end.

(** The events addressed to [s] in [outs]. *)
Definition delivered (s : SocketId) (outs : list Out) : list Event :=
  omap (fun o => match o with
                 | Emit t ev => if decide (t = s) then Some ev else None
                 end) outs.

End InMemory.

(** ** The room store behind [RoomRepository]

    The database-backed server calls [roomRepository] for every room
    operation; the repository classes are not part of the sources at hand.
    Their room operations are modelled here from the specification of the
    RoomManager component. *)

Module RoomManager.

(** Modelled from the spec: the error taxonomy of section 7
    ([ValidationError], [NotFoundError], [Forbidden], [PersistenceError]). *)
Inductive Error := ValidationError | NotFoundError | Forbidden | PersistenceError.

Definition result (A : Type) : Type := (Error + A)%type.

(** Modelled from the spec: the kind of a room, private or group. *)
Inductive Kind := private | group.

(** Modelled from the spec: a Room has an identity, a display name
    (nullable for private rooms), a kind, a creator and a member set. *)
Record Room := {
  name : option string;
  kind : Kind;
  creator : N;
  members : gset N
}.

(** Modelled from the spec: the store of rooms; private rooms are keyed by
    the unordered pair of their two participants, held here as the pair
    (smaller id, larger id). *)
Record t := {
  next_id : N;
  table : gmap N Room;
  private_index : gmap (N * N) N
}.

(** Modelled from the spec: the store at server start, with no room. *)
Definition empty : t := {| next_id := 1; table := ∅; private_index := ∅ |}.

(** Modelled from the spec: the key of the unordered pair of [a] and [b]. *)
Definition pair_key (a b : N) : N * N := (N.min a b, N.max a b).

(** Modelled from the spec: [createOrFindPrivateRoom(userA, userB) -> roomId],
    which is absent from the sources: repeated calls with the same
    unordered pair return the same room id and never create a duplicate;
    it fails with [ValidationError] if [userA == userB]. *)
Definition createOrFindPrivateRoom (userA userB : N) (rm : t) : result (N * t) :=
  if decide (userA = userB) then inl ValidationError
  else
    match private_index rm !! pair_key userA userB with
    | Some room_id => inr (room_id, rm)
    | None =>
        let room_id := next_id rm in
        inr (room_id,
             {| next_id := N.succ room_id;
                table := <[room_id := {| name := None; kind := private;
                                         creator := userA;
                                         members := {[userA; userB]} |}]>
                           (table rm);
                private_index :=
                  <[pair_key userA userB := room_id]> (private_index rm) |})
    end.

(** Modelled from the spec: [isMember(roomId, userId) -> bool], false (not
    an error) for an unknown room. *)
Definition isMember (room_id user_id : N) (rm : t) : bool :=
  match table rm !! room_id with
  | Some r => bool_decide (user_id ∈ members r)
  | None => false
  end.

(** Modelled from the spec: [members(roomId)], [NotFoundError] for an
    unknown room. *)
Definition members_of (room_id : N) (rm : t) : result (list N) :=
  match table rm !! room_id with
  | Some r => inr (elements (members r))
  | None => inl NotFoundError
  end.

(** Modelled from the spec: [addMember(roomId, userId)], idempotent,
    [NotFoundError] for an unknown room. *)
Definition addMember (room_id user_id : N) (rm : t) : result t :=
  match table rm !! room_id with
  | Some r =>
      inr {| next_id := next_id rm;
             table := <[room_id := {| name := name r; kind := kind r;
                                      creator := creator r;
                                      members := {[user_id]} ∪ members r |}]>
                        (table rm);
             private_index := private_index rm |}
  | None => inl NotFoundError
  end.

(** Modelled from the spec: the creation of a group room record, before
    its members are added ([roomRepository.create] in the handlers). *)
Definition create (nm : string) (created_by : N) (rm : t) : N * t :=
  let room_id := next_id rm in
  (room_id,
   {| next_id := N.succ room_id;
      table := <[room_id := {| name := Some nm; kind := group;
                               creator := created_by; members := ∅ |}]>
                 (table rm);
      private_index := private_index rm |}).

End RoomManager.

(** ** The database-backed server *)

Module Persistent.

Definition SocketId : Type := string.
Definition UserId : Type := N.
Definition RoomId : Type := N.

Abbreviation result := RoomManager.result.

(** [socket.user], installed by the authentication middleware, and the
    rows that [findByUsername] and [getRoomMembers] return. *)
Record User := { id : UserId; username : string }.

Inductive MessageType := text | file.

(** The argument of [messageRepository.create]. *)
Record MessageData := {
  room_id : RoomId;
  user_id : UserId;
  content : string;
  message_type : MessageType;
  file_data : option string
}.

Inductive PayloadType := private | group.

Record Payload := {
  p_id : N;
  from : string;
  to : option string;
  roomId : option RoomId;
  message : string;
  fileData : option string;
  timestamp : string;
  type : PayloadType
}.

(** Modelled from the spec: an element of [user_list],
    [{username, online, lastSeen, avatar, status}]; the rows come from
    [userRepository.findOnlineUsers], which is not in the sources. *)
Record UserRow := {
  row_username : string;
  row_online : bool;
  row_lastSeen : string;
  row_avatar : option string;
  row_status : string
}.

Inductive Event :=
| user_list (rows : list UserRow)
| receive_private (p : Payload)
| receive_group (p : Payload)
| message_sent (p : Payload)
| group_created (room : RoomId) (groupName : string)
                (mems : list string) (by_ : string)
| error (msg : string).

(** [io.to(target).emit(ev)] and [socket.emit(ev)] address one socket;
    [io.emit(ev)] addresses every connected socket. *)
Inductive Out :=
| Emit (target : SocketId) (ev : Event)
| Broadcast (ev : Event).

(** The repository methods the handlers await. Each one either returns
    or throws; those that write return the new database. *)
Class Repositories (DB : Type) := {
  findByUsername : string -> DB -> result (option User);
  findOnlineUsers : DB -> result (list UserRow);
  updateOnlineStatus : UserId -> bool -> DB -> result (unit * DB);
  isMember : RoomId -> UserId -> DB -> result bool;
  getRoomMembers : RoomId -> DB -> result (list User);
  createOrFindPrivateRoom : UserId -> UserId -> DB -> result (RoomId * DB);
  createRoom : string -> UserId -> DB -> result (RoomId * DB);
  addMember : RoomId -> UserId -> DB -> result (unit * DB);
  createMessage : MessageData -> DB -> result (N * DB)
}.

(** The closure of one connection. *)
Record Socket := { sid : SocketId; user : User }.

(** The object handed to [messageRepository.create] by [send_private] and
    [send_group]: [message_type: fileData ? 'file' : 'text'] and
    [file_data: fileData || null], so that a missing and an empty
    [fileData] are both stored as a text message without file data. *)
Definition messageData (room : RoomId) (sender : UserId) (msg : string)
    (fd : option string) : MessageData :=
  {| room_id := room; user_id := sender; content := msg;
     message_type := if Js.truthy fd then file else text;
     file_data := Js.or_null fd |}.

Section handlers.
Context {DB : Type} `{Repositories DB}.

(** What a handler can change: the database, [connectedUsers], and the
    events emitted so far (oldest first). *)
Record State := {
  db : DB;
  connectedUsers : gmap UserId SocketId;
  emitted : list Out
}.

(** A computation that returns a value or throws, and changes the state
    either way. *)
Definition M (A : Type) : Type := State -> option A * State.

Definition ret {A} (a : A) : M A := fun s => (Some a, s).

Definition bind {A B} (m : M A) (k : A -> M B) : M B :=
  fun s =>
    match m s with
    | (Some a, s') => k a s'
    | (None, s') => (None, s')
    end.

(** [try { body } catch (error) { handler }] *)
Definition try_catch (body : M unit) (handler : M unit) : M unit :=
  fun s =>
    match body s with
    | (Some a, s') => (Some a, s')
    | (None, s') => handler s'
    end.

Definition emit (o : Out) : M unit :=
  fun s => (Some tt, {| db := db s; connectedUsers := connectedUsers s;
                        emitted := emitted s ++ [o] |}).

(** [await repository.query(...)] *)
Definition query {A} (q : DB -> result A) : M A :=
  fun s =>
    match q (db s) with
    | inr a => (Some a, s)
    | inl _ => (None, s)
    end.

(** [await repository.command(...)] *)
Definition command {A} (q : DB -> result (A * DB)) : M A :=
  fun s =>
    match q (db s) with
    | inr (a, d) => (Some a, {| db := d; connectedUsers := connectedUsers s;
                                emitted := emitted s |})
    | inl _ => (None, s)
    end.

(** [connectedUsers.get(id)] *)
Definition connected (u : UserId) : M (option SocketId) :=
  fun s => (Some (connectedUsers s !! u), s).

(** [connectedUsers.delete(id)] *)
Definition forget (u : UserId) : M unit :=
  fun s => (Some tt, {| db := db s;
                        connectedUsers := delete u (connectedUsers s);
                        emitted := emitted s |}).

(** [for (const x of xs) { await body(x) }] and [xs.forEach(body)]. *)
Fixpoint for_each {A} (xs : list A) (body : A -> M unit) : M unit :=
  match xs with
  | [] => ret tt
  | x :: xs' => bind (body x) (fun _ => for_each xs' body)
  end.

Local Notation "x <- m ;; k" := (bind m (fun x => k))
  (at level 100, m at next level, right associativity).
Local Notation "m ;;; k" := (bind m (fun _ => k))
  (at level 100, right associativity).

(** [if (socketId) io.to(socketId).emit(ev)] for the user [u]; the ids in
    [connectedUsers] are those given by socket.io, none of them empty, so
    the test is whether the user has an entry. *)
Definition emit_if_connected (u : UserId) (ev : Event) : M unit :=
  s <- connected u ;;
  match s with
  | Some target => emit (Emit target ev)
  | None => ret tt
  end.

(** [broadcastUsersList()] *)
Definition broadcastUsersList : M unit :=
  try_catch
    (onlineUsers <- query findOnlineUsers ;;
     emit (Broadcast (user_list onlineUsers)))
    (ret tt).

(** [socket.on("send_private", async ({ to, message, fileData }) => ...)] *)
Definition send_private (time : string) (to_ : string) (msg : string)
    (fd : option string) (sk : Socket) : M unit :=
  try_catch
    (targetUser <- query (findByUsername to_) ;;
     match targetUser with
     | None => emit (Emit (sid sk) (error "Usuário não encontrado"))
     | Some targetUser =>
         room <- command (createOrFindPrivateRoom (id (user sk)) (id targetUser)) ;;
         saved <- command (createMessage
                    (messageData room (id (user sk)) msg fd)) ;;
         let payload :=
           {| p_id := saved; from := username (user sk); to := Some to_;
              roomId := None; message := msg; fileData := fd;
              timestamp := time; type := private |} in
         emit_if_connected (id targetUser) (receive_private payload) ;;;
         emit (Emit (sid sk) (message_sent payload))
     end)
    (emit (Emit (sid sk) (error "Erro ao enviar mensagem"))).

(** [socket.on("send_group", async ({ roomId, message, fileData }) => ...)] *)
Definition send_group (time : string) (room : RoomId) (msg : string)
    (fd : option string) (sk : Socket) : M unit :=
  try_catch
    (member <- query (isMember room (id (user sk))) ;;
     if negb member
     then emit (Emit (sid sk) (error "Você não é membro deste grupo"))
     else
       saved <- command (createMessage
                  (messageData room (id (user sk)) msg fd)) ;;
       let payload :=
         {| p_id := saved; from := username (user sk); to := None;
            roomId := Some room; message := msg; fileData := fd;
            timestamp := time; type := group |} in
       mems <- query (getRoomMembers room) ;;
       for_each mems (fun member =>
         emit_if_connected (id member) (receive_group payload)))
    (emit (Emit (sid sk) (error "Erro ao enviar mensagem"))).

(** [socket.on("create_group", async ({ groupName, members }) => ...)] *)
Definition create_group (groupName : string) (mems : list string)
    (sk : Socket) : M unit :=
  let notice room :=
    group_created room groupName (username (user sk) :: mems)
                  (username (user sk)) in
  try_catch
    (room <- command (createRoom groupName (id (user sk))) ;;
     command (addMember room (id (user sk))) ;;;
     for_each mems (fun memberUsername =>
       member <- query (findByUsername memberUsername) ;;
       match member with
       | Some member =>
           command (addMember room (id member)) ;;;
           emit_if_connected (id member) (notice room)
       | None => ret tt
       end) ;;;
     emit (Emit (sid sk) (notice room)))
    (emit (Emit (sid sk) (error "Erro ao criar grupo"))).

(** [socket.on("disconnect", async () => ...)] *)
Definition disconnect (sk : Socket) : M unit :=
  try_catch
    (command (updateOnlineStatus (id (user sk)) false) ;;;
     forget (id (user sk)) ;;;
     broadcastUsersList)
    (ret tt).

(** The events that reach the socket [s] out of [outs]: those addressed
    to it and, [s] being connected, every broadcast. *)
Definition delivered (s : SocketId) (outs : list Out) : list Event :=
  omap (fun o => match o with
                 | Emit t ev => if decide (t = s) then Some ev else None
                 | Broadcast ev => Some ev
                 end) outs.

End handlers.

Arguments State : clear implicits.
Arguments M : clear implicits.

End Persistent.

(** ** A database for the handlers

    Modelled from the spec: an instance of the repositories, which are not
    in the sources: the user table, the room store of the RoomManager and
    the message log of the HistoryStore, with ids assigned in increasing
    order. It is the database the handlers are run on in the examples. *)

Module MemDb.
Import Persistent.

(** Modelled from the spec: the tables behind the three repositories. *)
Record t := {
  accounts : list (User * UserRow);
  roomStore : RoomManager.t;
  messageLog : list (N * MessageData)
}.

Definition with_rooms (d : t) (r : RoomManager.t) : t :=
  {| accounts := accounts d; roomStore := r; messageLog := messageLog d |}.

Definition set_online (u : UserId) (b : bool) (a : User * UserRow)
    : User * UserRow :=
  if decide (id (fst a) = u)
  then (fst a, {| row_username := row_username (snd a); row_online := b;
                  row_lastSeen := row_lastSeen (snd a);
                  row_avatar := row_avatar (snd a);
                  row_status := row_status (snd a) |})
  else a.

Definition user_of (d : t) (u : UserId) : option User :=
  fst <$> List.find (fun a => bool_decide (id (fst a) = u)) (accounts d).

(** Modelled from the spec: the repository methods, which are not in the
    sources, over these tables: lookups by name and by id, the room
    operations of the RoomManager, and an append-only message log. *)
#[global] Instance repositories : Repositories t := {|
  findByUsername nm d :=
    inr (fst <$> List.find (fun a => bool_decide (username (fst a) = nm))
                           (accounts d));
  findOnlineUsers d :=
    inr (List.filter row_online (map snd (accounts d)));
  updateOnlineStatus u b d :=
    inr (tt, {| accounts := map (set_online u b) (accounts d);
                roomStore := roomStore d; messageLog := messageLog d |});
  isMember r u d := inr (RoomManager.isMember r u (roomStore d));
  getRoomMembers r d :=
    match RoomManager.members_of r (roomStore d) with
    | inr ids => inr (omap (user_of d) ids)
    | inl e => inl e
    end;
  createOrFindPrivateRoom a b d :=
    match RoomManager.createOrFindPrivateRoom a b (roomStore d) with
    | inr (r, rm) => inr (r, with_rooms d rm)
    | inl e => inl e
    end;
  createRoom nm u d :=
    let '(r, rm) := RoomManager.create nm u (roomStore d) in
    inr (r, with_rooms d rm);
  addMember r u d :=
    match RoomManager.addMember r u (roomStore d) with
    | inr rm => inr (tt, with_rooms d rm)
    | inl e => inl e
    end;
  createMessage m d :=
    let n := N.of_nat (S (length (messageLog d))) in
    inr (n, {| accounts := accounts d; roomStore := roomStore d;
               messageLog := messageLog d ++ [(n, m)] |})
|}.

End MemDb.

(** ** Notions used in the statements *)

Module Notions.
Import Js InMemory.

(** Text of ASCII characters only (codes below 128). *)
Fixpoint ascii_text (s : string) : bool :=
  match s with
  | EmptyString => true
  | String c s' => (nat_of_ascii c <? 128)%nat && ascii_text s'
  end.

(** The letters of the alphabet, each capital with its small letter. *)
Definition letters : list (ascii * ascii) :=
  zip (list_ascii_of_string "ABCDEFGHIJKLMNOPQRSTUVWXYZ")
      (list_ascii_of_string "abcdefghijklmnopqrstuvwxyz").

(** Two characters are the same up to case: the same character, or the
    capital and the small form of one letter. *)
Definition same_letter (a b : ascii) : Prop :=
  a = b ∨ (a, b) ∈ letters ∨ (b, a) ∈ letters.

(** Two strings are equal up to the case of their letters: of the same
    length, and the same up to case at every position. *)
Fixpoint equal_ignoring_case (s t : string) : Prop :=
  match s, t with
  | EmptyString, EmptyString => True
  | String a s', String b t' => same_letter a b ∧ equal_ignoring_case s' t'
  | _, _ => False
  end.


(** The character has one of the codes of [A]..[Z]. *)
Definition capital (c : ascii) : bool :=
  (65 <=? nat_of_ascii c)%nat && (nat_of_ascii c <=? 90)%nat.

(** The inbox read by a connection: [messageHistory.get(currentUser) || []]. *)
Definition inbox (st : Server) (nm : Name) : list Payload :=
  default [] (messageHistory st !! nm).

(** Every stored inbox holds at most 1000 messages. *)
Definition inboxes_bounded (mh : gmap Name (list Payload)) : Prop :=
  ∀ k l, mh !! k = Some l → (length l ≤ 1000)%nat.

(** What [saveMessage] keeps after [push]: the list, without its first
    element when it has grown beyond 1000. *)
Definition trimmed (l : list Payload) : list Payload :=
  if (1000 <? length l)%nat then tail l else l.

(** The last 1000 elements of a list. *)
Definition newest (l : list Payload) : list Payload :=
  drop (length l - 1000) l.

(** The messages [msgs] saved one after the other, oldest first, into the
    inbox of [userId]. *)
Definition save_all (userId : Name) (msgs : list Payload)
    (mh : gmap Name (list Payload)) : gmap Name (list Payload) :=
  fold_left (fun h m => saveMessage userId m h) msgs mh.

(** [nm] is in the member list of the room stored under [room_id]. *)
Definition member_of (st : Server) (room_id : string) (nm : Name) : Prop :=
  ∃ room, rooms st !! room_id = Some room ∧ nm ∈ members room.

(** How many times [nm] is listed in [l]. *)
Definition occurrences (nm : Name) (l : list Name) : nat :=
  length (filter (fun m => m = nm) l).

(** The world after a sequence of inbound events. *)
Definition after (evs : list (Clock * SocketId * Inbound)) : World :=
  fst (run empty_world evs).

(** What the last event of the sequence makes the server emit. *)
Definition emitted_by (evs : list (Clock * SocketId * Inbound)) : list Out :=
  snd (run empty_world evs).

#[export] Instance same_letter_dec a b : Decision (same_letter a b).
Proof. unfold same_letter. apply _. Defined.

#[export] Instance equal_ignoring_case_dec s t :
  Decision (equal_ignoring_case s t).
Proof.
  revert t. induction s as [|a s IH]; intros [|b t];
    cbn [equal_ignoring_case]; apply _.
Defined.

#[export] Instance MsgType_eq_dec : EqDecision MsgType.
Proof. solve_decision. Defined.

#[export] Instance Payload_eq_dec : EqDecision Payload.
Proof. solve_decision. Defined.

End Notions.

(** ** Sample runs *)

Module Examples.
Import InMemory Notions.

Definition clock0 : Clock :=
  {| now := 1700000000000; random := 7; localeTime := "10:00";
     isoString := "2024-01-01T10:00:00.000Z" |}.

Definition clock1 : Clock :=
  {| now := 1700000060000; random := 9; localeTime := "10:01";
     isoString := "2024-01-01T10:01:00.000Z" |}.

(** The [n]-th message of a flood, each with its own id. *)
Definition numbered (n : nat) : Payload :=
  {| id := (now clock0, N.of_nat n); from := Some "alice"; to := Some "bob";
     roomId := None; message := "hi"; timestamp := "10:00";
     type := InMemory.private |}.

(** 1001 distinct messages. *)
Definition flood_messages : list Payload := map numbered (seq 0 1001).

(** Alice on socket [s1], Bob on socket [s2]. *)
Definition alice_and_bob : list (Clock * SocketId * Inbound) :=
  [(clock0, "s1", SetUsername "alice" None);
   (clock0, "s2", SetUsername "bob" None)].

(** Bob creates a group with no other member; Alice is not in it. *)
Definition bob_alone : list (Clock * SocketId * Inbound) :=
  alice_and_bob ++ [(clock0, "s2", CreateGroup "solo" [])].

(** Alice creates a group and lists herself among the members. *)
Definition alice_listed_twice : list (Clock * SocketId * Inbound) :=
  alice_and_bob ++ [(clock0, "s1", CreateGroup "devs" ["alice"; "bob"])].

(** Alice creates a group with Bob. *)
Definition alice_group : list (Clock * SocketId * Inbound) :=
  alice_and_bob ++ [(clock0, "s1", CreateGroup "devs" ["bob"])].

(** Alice creates a group with Bob and sends 1001 messages into it. *)
Definition group_flood : list (Clock * SocketId * Inbound) :=
  alice_and_bob ++ [(clock0, "s1", CreateGroup "devs" ["bob"])]
    ++ replicate 1001 (clock0, "s1", SendGroup (group_id clock0) "hi").

(** Alice sends 1001 private messages to Bob. *)
Definition private_flood : list (Clock * SocketId * Inbound) :=
  alice_and_bob ++ replicate 1001 (clock0, "s1", SendPrivate "bob" "hi").

(** Alice registers on [s1], registers again on [s2] (a newer connection),
    and then [s1] disconnects. *)
Definition late_disconnect : list (Clock * SocketId * Inbound) :=
  [(clock0, "s1", SetUsername "alice" None);
   (clock0, "s2", SetUsername "alice" None);
   (clock1, "s1", Disconnect)].

(** Alice is registered on [s1] and [s2]; [s2] disconnects; [s1], still
    open, sends a private message to Alice. *)
Definition self_send_after_disconnect : list (Clock * SocketId * Inbound) :=
  [(clock0, "s1", SetUsername "alice" None);
   (clock0, "s2", SetUsername "alice" None);
   (clock0, "s2", Disconnect);
   (clock1, "s1", SendPrivate "alice" "note")].

(** The closure of Alice's socket and the state after [alice_and_bob]. *)
Definition alice_socket : Socket :=
  {| sid := "s1"; currentUser := Some "alice"; currentRoom := None |}.

Definition two_online : Server := server (after alice_and_bob).

(** *** The database-backed server *)

Definition alice : Persistent.User := {| Persistent.id := 1%N; Persistent.username := "alice" |}.
Definition bob : Persistent.User := {| Persistent.id := 2%N; Persistent.username := "bob" |}.
Definition carol : Persistent.User := {| Persistent.id := 3%N; Persistent.username := "carol" |}.

Definition row (nm : string) (on : bool) : Persistent.UserRow :=
  {| Persistent.row_username := nm; Persistent.row_online := on;
     Persistent.row_lastSeen := "2024-01-01 10:00:00";
     Persistent.row_avatar := None; Persistent.row_status := "available" |}.

(** Three accounts, Carol offline, and one private room, between Bob and
    Carol. *)
Definition database : MemDb.t :=
  {| MemDb.accounts :=
       [(alice, row "alice" true); (bob, row "bob" true);
        (carol, row "carol" false)];
     MemDb.roomStore :=
       match RoomManager.createOrFindPrivateRoom 2%N 3%N RoomManager.empty with
       | inr (_, rm) => rm
       | inl _ => RoomManager.empty
       end;
     MemDb.messageLog := [] |}.

(** Alice and Bob connected, nothing emitted yet. *)
Definition connected_state : Persistent.State MemDb.t :=
  {| Persistent.db := database;
     Persistent.connectedUsers := {[ 1%N := "s1"; 2%N := "s2" ]};
     Persistent.emitted := [] |}.

Definition alice_db_socket : Persistent.Socket :=
  {| Persistent.sid := "s1"; Persistent.user := alice |}.

End Examples.

(** ** Channels and typing relays of the in-memory server ([index.js]) *)

Module Relay.
Import Js InMemory.

(** The object sent with [typing] and [stop_typing]: [{ from, type }] for
    a private relay, [{ from, type, roomId }] for a group. *)
Record Typing := {
  typing_from : Name;
  typing_type : MsgType;
  typing_roomId : option string
}.

Inductive Signal :=
| room_history (msgs : list Payload)
| typing (t : Typing)
| stop_typing (t : Typing).

(** What these handlers ask of socket.io: [socket.emit] and
    [io.to(id).emit] address one socket; [socket.to(room).emit] addresses
    the sockets of a channel other than the sender; [socket.join] and
    [socket.leave] change the channels of the socket. *)
Inductive Action :=
| Emit (target : SocketId) (ev : Signal)
| EmitToRoom (room : string) (sender : SocketId) (ev : Signal)
| Join (s : SocketId) (room : string)
| Leave (s : SocketId) (room : string).

(** [socket.on("join_room", (roomId) => ...)] *)
Definition join_room (room_id : string) (sk : Socket) (st : Server)
    : Socket * Server * list Action :=
  let sk' := {| sid := sid sk; currentUser := currentUser sk;
                currentRoom := Some room_id |} in
  (sk', st,
   Join (sid sk) room_id ::
   match rooms st !! room_id with
   | Some room => [Emit (sid sk) (room_history (messages room))]
   | None => []
   end).

(** [socket.on("leave_room", (roomId) => ...)] *)
Definition leave_room (room_id : string) (sk : Socket) (st : Server)
    : Socket * Server * list Action :=
  ({| sid := sid sk; currentUser := currentUser sk; currentRoom := None |},
   st, [Leave (sid sk) room_id]).



(** An element of the answer of [GET /api/users]. *)
Record UserSummary := {
  summary_username : Name;
  summary_online : bool;
  summary_lastSeen : string;
  summary_avatar : option string
}.

(** [app.get('/api/users', ...)]: the body of the answer. *)
Definition api_users (st : Server) : list UserSummary :=
  map (fun e => {| summary_username := fst e;
                   summary_online := online (snd e);
                   summary_lastSeen := lastSeen (snd e);
                   summary_avatar := avatar (snd e) |})
      (OMap.entries (users st)).


End Relay.

(** ** The request limiter ([middleware/auth.js]) *)

Module RateLimit.

Local Open Scope Z_scope.

(** What the middleware does with the request: [next()], or the answer
    429 with its [retryAfter]. *)
Inductive Response :=
| next
| too_many (retryAfter : Z).

(** [timestamps.filter(time => time > windowStart)] *)
Definition valid (windowStart : Z) (timestamps : list Z) : list Z :=
  filter (fun time => windowStart < time) timestamps.

(** The loop over [requests.entries()]: every list is cut to its
    timestamps above [windowStart], and a key whose list becomes empty is
    deleted. *)
Definition sweep (windowStart : Z) (requests : gmap string (list Z))
    : gmap string (list Z) :=
  omap (fun timestamps =>
          let validTimestamps := valid windowStart timestamps in
          if decide (length validTimestamps = 0%nat) then None
          else Some validTimestamps)
       requests.

(** [Math.ceil(windowMs / 1000)] *)
Definition retry_after (windowMs : Z) : Z := - ((- windowMs) / 1000).

(** One call of the function returned by [rateLimiter(maxRequests,
    windowMs)], for the request of [ip] at time [now]; [requests] is the
    map of the closure. *)
Definition rateLimiter (maxRequests : nat) (windowMs : Z) (ip : string)
    (now : Z) (requests : gmap string (list Z))
    : Response * gmap string (list Z) :=
  let windowStart := now - windowMs in
  let requests := sweep windowStart requests in
  let userRequests := default [] (requests !! ip) in
  let recentRequests := valid windowStart userRequests in
  if (maxRequests <=? length recentRequests)%nat
  then (too_many (retry_after windowMs), requests)
  else (next, <[ip := recentRequests ++ [now]]> requests).

(** The requests [(now, ip)] served one after the other: each with the
    answer it got, and the map at the end. *)
Fixpoint serve (maxRequests : nat) (windowMs : Z) (reqs : list (Z * string))
    (requests : gmap string (list Z))
    : list (Z * string * Response) * gmap string (list Z) :=
  match reqs with
  | [] => ([], requests)
  | (now, ip) :: rest =>
      let '(r, requests') := rateLimiter maxRequests windowMs ip now requests in
      let '(log, final) := serve maxRequests windowMs rest requests' in
      ((now, ip, r) :: log, final)
  end.

(** The times at which [ip] was let through in [log]. *)
Definition admitted (ip : string) (log : list (Z * string * Response)) : list Z :=
  omap (fun e => match e with
                 | (time, ip', next) => if decide (ip' = ip) then Some time else None
                 | (_, _, too_many _) => None
                 end) log.

End RateLimit.

(** ** The token check ([middleware/auth.js]) *)

Module Auth.
Import Js.

(** [s.split(' ')] *)
Fixpoint split_space (s : string) : list string :=
  match s with
  | EmptyString => [EmptyString]
  | String c s' =>
      if decide (c = " "%char) then EmptyString :: split_space s'
      else
        match split_space s' with
        | field :: fields => String c field :: fields
        | [] => [String c EmptyString]
        end
  end.

(** [s] contains a space. *)
Fixpoint has_space (s : string) : bool :=
  match s with
  | EmptyString => false
  | String c s' => bool_decide (c = " "%char) || has_space s'
  end.

(** [next()] with [req.user] set, or the answer of the middleware. *)
Inductive Outcome (U : Type) :=
| next (user : U)
| answer (status : nat) (code : string).
Arguments next {U} user.
Arguments answer {U} status code.

(** [authHeader && authHeader.split(' ')[1]] *)
Definition bearer (authHeader : option string) : option string :=
  match authHeader with
  | Some h => if bool_decide (h = "") then Some h else split_space h !! 1%nat
  | None => None
  end.

(** [authenticateToken(authService)], on the value of the
    [authorization] header; [validateToken] is [authService.validateToken],
    which returns the user or throws. *)
Definition authenticateToken {U} (validateToken : string -> option U)
    (authHeader : option string) : Outcome U :=
  let token := bearer authHeader in
  if negb (truthy token) then answer 401 "NO_TOKEN"
  else
    match token ≫= validateToken with
    | Some user => next user
    | None => answer 403 "INVALID_TOKEN"
    end.

End Auth.

(** ** Requests served in time order *)

Module Served.
Local Open Scope Z_scope.

(** The requests arrive in the order of their times, none before [since]. *)
Fixpoint in_time_order (since : Z) (reqs : list (Z * string)) : Prop :=
  match reqs with
  | [] => True
  | (now, _) :: rest => since ≤ now ∧ in_time_order now rest
  end.

(** What the map records when requests are served in the order of their
    times: for every client, the requests let through that are still
    within the window of the latest request. *)
Definition records (windowMs latest : Z)
    (past : list (Z * string * RateLimit.Response))
    (requests : gmap string (list Z)) : Prop :=
  ∀ ip, default [] (requests !! ip)
        = RateLimit.valid (latest - windowMs) (RateLimit.admitted ip past).

End Served.

(** ** A database that can fail

    Modelled from the spec: the repositories over the same tables, with
    switches that make the message write or the member read throw a
    [PersistenceError]. It is the database on which the failure paths of
    the handlers are run in the examples. *)

Module Faulty.
Import Persistent.

(** Modelled from the spec: the tables and the two switches. *)
Record t := {
  store : MemDb.t;
  create_fails : bool;
  members_fail : bool
}.

Definition with_store (d : t) (s : MemDb.t) : t :=
  {| store := s; create_fails := create_fails d;
     members_fail := members_fail d |}.

(** A write on the tables, carried over to the database. *)
Definition lifted {A} (d : t) (r : RoomManager.result (A * MemDb.t))
    : RoomManager.result (A * t) :=
  match r with
  | inr (a, s) => inr (a, with_store d s)
  | inl e => inl e
  end.

(** Modelled from the spec: the repository methods, which are not in the
    sources, with the two failures. *)
#[global] Instance repositories : Repositories t := {|
  findByUsername nm d := findByUsername nm (store d);
  findOnlineUsers d := findOnlineUsers (store d);
  updateOnlineStatus u b d := lifted d (updateOnlineStatus u b (store d));
  isMember r u d := isMember r u (store d);
  getRoomMembers r d :=
    if members_fail d then inl RoomManager.PersistenceError
    else getRoomMembers r (store d);
  createOrFindPrivateRoom a b d :=
    lifted d (createOrFindPrivateRoom a b (store d));
  createRoom nm u d := lifted d (createRoom nm u (store d));
  addMember r u d := lifted d (addMember r u (store d));
  createMessage m d :=
    if create_fails d then inl RoomManager.PersistenceError
    else lifted d (createMessage m (store d))
|}.

End Faulty.

(** ** Further sample runs *)

Module Trials.
Import InMemory Notions Examples.

Definition bob_socket : Socket :=
  {| sid := "s2"; currentUser := Some "bob"; currentRoom := None |}.

(** The records of Alice and Bob after [alice_and_bob]. *)
Definition alice_info : UserInfo :=
  {| socketId := "s1"; online := true; avatar := None;
     lastSeen := isoString clock0; status := None |}.

Definition bob_info : UserInfo :=
  {| socketId := "s2"; online := true; avatar := None;
     lastSeen := isoString clock0; status := None |}.

(** Alice writes "hello" to Bob. *)
Definition private_talk : list (Clock * SocketId * Inbound) :=
  alice_and_bob ++ [(clock1, "s1", SendPrivate "bob" "hello")].

Definition hello : Payload :=
  {| id := (now clock1, random clock1); from := Some "alice";
     to := Some "bob"; roomId := None; message := "hello";
     timestamp := localeTime clock1; type := private |}.



(** Alice creates a group with Bob and writes "hi" into it. *)
Definition group_talk : list (Clock * SocketId * Inbound) :=
  alice_group ++ [(clock1, "s1", SendGroup (group_id clock0) "hi")].

Definition hi : Payload :=
  {| id := (now clock1, random clock1); from := Some "alice"; to := None;
     roomId := Some (group_id clock0); message := "hi";
     timestamp := localeTime clock1; type := group |}.

Definition devs : Room :=
  {| name := "devs"; members := [Some "bob"; Some "alice"]; messages := [];
     createdBy := Some "alice"; createdAt := isoString clock0 |}.

Definition devs_with_hi : Room :=
  {| name := "devs"; members := [Some "bob"; Some "alice"]; messages := [hi];
     createdBy := Some "alice"; createdAt := isoString clock0 |}.

(** A group, a group message and a private message. *)
Definition busy : list (Clock * SocketId * Inbound) :=
  group_talk ++ [(clock1, "s1", SendPrivate "bob" "hello")].

(** Four requests of one client, with two allowed per second. *)
Definition burst : list (Z * string) :=
  [(0%Z, "10.0.0.1"); (10%Z, "10.0.0.1"); (20%Z, "10.0.0.1");
   (1500%Z, "10.0.0.1")].

(** A token service that knows one token. *)
Definition validateToken (token : string) : option nat :=
  if bool_decide (token = "abc") then Some 7%nat else None.

(** *** The database-backed server *)

Definition bob_db_socket : Persistent.Socket :=
  {| Persistent.sid := "s2"; Persistent.user := bob |}.

(** The connected state over a database whose message write fails, and
    over one whose member read fails. *)
Definition write_fails : Persistent.State Faulty.t :=
  {| Persistent.db := {| Faulty.store := database; Faulty.create_fails := true;
                         Faulty.members_fail := false |};
     Persistent.connectedUsers := {[ 1%N := "s1"; 2%N := "s2" ]};
     Persistent.emitted := [] |}.

Definition read_fails : Persistent.State Faulty.t :=
  {| Persistent.db := {| Faulty.store := database; Faulty.create_fails := false;
                         Faulty.members_fail := true |};
     Persistent.connectedUsers := {[ 1%N := "s1"; 2%N := "s2" ]};
     Persistent.emitted := [] |}.

End Trials.

(** ** Notions used in the further properties *)

Module Reach.
Import Js InMemory.

(** The message [p] was sent by [k] or addressed to [k]. *)
Definition involves (k : Name) (p : Payload) : Prop :=
  from p = k ∨ to p = k.

(** A private message: [type: 'private'], no [roomId]. *)
Definition is_private (p : Payload) : Prop :=
  type p = private ∧ roomId p = None.

(** A message of the room [r]: [type: 'group'], [roomId: r], no [to]. *)
Definition is_group_message (r : string) (p : Payload) : Prop :=
  type p = group ∧ roomId p = Some r ∧ to p = None.

(** The names registered by a sequence of events, in the order of the
    [set_username] events. *)
Definition registrations (evs : list (Clock * SocketId * Inbound))
    : list Name :=
  omap (fun i => match i.2 with
                 | SetUsername username _ => Some (Some username)
                 | _ => None
                 end) evs.

(** A list without its repetitions: every element once, at the place of
    its first occurrence. *)
Fixpoint first_occurrences (l : list Name) : list Name :=
  match l with
  | [] => []
  | nm :: l' => nm :: filter (fun x => x ≠ nm) (first_occurrences l')
  end.

End Reach.

(** * Properties *)

Import Js Notions.

(** ** Strings *)

Section strings.



Lemma lower_char_capital c : capital c = true → lower_char c = ascii_of_nat (nat_of_ascii c + 32).
Proof. unfold lower_char, capital. now intros ->. Qed.

Lemma lower_char_other c : capital c = false → lower_char c = c.
Proof. unfold lower_char, capital. now intros ->. Qed.

(** The table of letters and the folding of a capital agree. *)
Lemma letters_lower a b :
  (a, b) ∈ letters ↔ capital a = true ∧ b = lower_char a.
Proof.
  split.
  - intros Hin. unfold letters in Hin. cbn in Hin.
    repeat (apply elem_of_cons in Hin as [Hin|Hin];
            [injection Hin as -> ->; split; reflexivity|]).
    now apply elem_of_nil in Hin.
  - intros [Hcap ->].
    destruct a as [[] [] [] [] [] [] [] []];
      try discriminate Hcap; apply (bool_decide_unpack _); vm_compute; exact I.
Qed.

Lemma lower_char_small a : capital (lower_char a) = false.
Proof. destruct a as [[] [] [] [] [] [] [] []]; reflexivity. Qed.

Lemma lower_char_inj_capital a b :
  capital a = true → capital b = true → lower_char a = lower_char b → a = b.
Proof.
  intros Ha Hb. rewrite !lower_char_capital by assumption. intros Heq.
  unfold capital in Ha, Hb.
  apply andb_true_iff in Ha as [_ Ha], Hb as [_ Hb].
  apply Nat.leb_le in Ha, Hb.
  apply (f_equal nat_of_ascii) in Heq.
  rewrite !nat_ascii_embedding in Heq by lia.
  rewrite <- (ascii_nat_embedding a), <- (ascii_nat_embedding b).
  f_equal. lia.
Qed.

(** The folding identifies exactly the characters that are the same up
    to case. *)
Lemma lower_char_same_letter a b :
  lower_char a = lower_char b ↔ same_letter a b.
Proof.
  unfold same_letter. rewrite !letters_lower. split.
  - intros Heq.
    destruct (capital a) eqn:Ha, (capital b) eqn:Hb.
    + left. now apply lower_char_inj_capital.
    + right. left. split; [reflexivity|].
      now rewrite Heq, (lower_char_other b).
    + right. right. split; [reflexivity|].
      now rewrite <- Heq, (lower_char_other a).
    + left. now rewrite <- (lower_char_other a), <- (lower_char_other b).
  - intros [->|[[_ ->]|[_ ->]]]; [reflexivity| |].
    + now rewrite (lower_char_other _ (lower_char_small a)).
    + now rewrite (lower_char_other _ (lower_char_small b)).
Qed.

Lemma same_letter_ascii a b :
  same_letter a b → (nat_of_ascii a <? 128)%nat = true →
  (nat_of_ascii b <? 128)%nat = true.
Proof.
  intros [->|[Hin|Hin]]; [auto| |]; intros _.
  - apply letters_lower in Hin as [Hcap ->]. revert Hcap.
    destruct a as [[] [] [] [] [] [] [] []]; (discriminate || reflexivity).
  - apply letters_lower in Hin as [Hcap _]. revert Hcap.
    destruct b as [[] [] [] [] [] [] [] []]; (discriminate || reflexivity).
Qed.

(** A character of the ASCII range starts no sigma. *)
Lemma no_sigma_ascii c s :
  (nat_of_ascii c <? 128)%nat = true →
  startsWith (String c s) "Σ" = false ∧ sigma_first (String c s) = false.
Proof.
  intros Hc. unfold sigma_first. cbn [startsWith].
  repeat match goal with
         | |- context [decide (c = ?x)] =>
             destruct (decide (c = x)) as [->|_]; [discriminate Hc|]
         end.
  auto.
Qed.

Lemma lower_from_cons b c s :
  (nat_of_ascii c <? 128)%nat = true →
  lower_from b (String c s)
  = String (lower_char c)
      (lower_from (if case_ignorable c then b else cased_char c) s).
Proof.
  intros Hc. destruct (no_sigma_ascii c s Hc) as [H1 H2].
  cbn [lower_from]. now rewrite H1, H2.
Qed.

(** On ASCII text the folding does not depend on what came before. *)
Lemma lower_from_ascii b s :
  ascii_text s = true → lower_from b s = toLowerCase s.
Proof.
  unfold toLowerCase. revert b. induction s as [|c s IH]; intros b Hs;
    [reflexivity|].
  cbn [ascii_text] in Hs. apply andb_true_iff in Hs as [Hc Hs].
  rewrite !lower_from_cons by assumption.
  f_equal. rewrite (IH _ Hs). symmetry. now apply IH.
Qed.

(** On ASCII text [toLowerCase] folds letter by letter. *)
Lemma toLowerCase_cons c s :
  ascii_text (String c s) = true →
  toLowerCase (String c s) = String (lower_char c) (toLowerCase s).
Proof.
  intros Hs. cbn [ascii_text] in Hs. apply andb_true_iff in Hs as [Hc Hs].
  unfold toLowerCase at 1. rewrite lower_from_cons by assumption.
  now rewrite lower_from_ascii.
Qed.




(** Two ASCII texts fold to the same text exactly when they are equal up
    to case. *)
Lemma toLowerCase_equal_ignoring_case (s t : string) :
  ascii_text s = true → ascii_text t = true →
  toLowerCase s = toLowerCase t ↔ equal_ignoring_case s t.
Proof.
  revert t. induction s as [|a s IH]; intros [|b t] Hs Ht;
    cbn [equal_ignoring_case].
  - tauto.
  - rewrite (toLowerCase_cons b t) by assumption. split; [discriminate|tauto].
  - rewrite (toLowerCase_cons a s) by assumption. split; [discriminate|tauto].
  - rewrite (toLowerCase_cons a s), (toLowerCase_cons b t) by assumption.
    cbn [ascii_text] in Hs, Ht.
    apply andb_true_iff in Hs as [_ Hs], Ht as [_ Ht].
    rewrite <- lower_char_same_letter, <- (IH t Hs Ht). split.
    + intros Heq. now injection Heq.
    + intros [-> ->]. reflexivity.
Qed.

Lemma equal_ignoring_case_ascii (s t : string) :
  equal_ignoring_case s t → ascii_text s = true → ascii_text t = true.
Proof.
  revert t. induction s as [|a s IH]; intros [|b t]; cbn [equal_ignoring_case];
    try tauto.
  intros [Hab Hst] Hs. cbn [ascii_text] in *.
  apply andb_true_iff in Hs as [Ha Hs].
  now rewrite (same_letter_ascii a b Hab Ha), (IH t Hst Hs).
Qed.


End strings.

(** ** The ordered map *)

Section omap_facts.
Context {K V : Type} `{EqDecision K}.
Implicit Types (m : list (K * V)) (k : K) (v : V).

Lemma omap_get_set_eq k v m : OMap.get k (OMap.set k v m) = Some v.
Proof.
  induction m as [|[k' v'] m IH]; simpl.
  - now rewrite decide_True.
  - destruct (decide (k = k')) as [->|Hne]; simpl.
    + now rewrite decide_True.
    + now rewrite decide_False.
Qed.

Lemma omap_get_set_ne k k' v m :
  k ≠ k' → OMap.get k' (OMap.set k v m) = OMap.get k' m.
Proof.
  intros Hne. induction m as [|[k0 v0] m IH]; simpl.
  - rewrite decide_False; [reflexivity | congruence].
  - destruct (decide (k = k0)) as [->|Hk]; simpl.
    + rewrite !decide_False; [reflexivity | congruence | congruence].
    + destruct (decide (k' = k0)); [reflexivity | assumption].
Qed.

Lemma omap_get_elem_of k v m : OMap.get k m = Some v → (k, v) ∈ m.
Proof.
  induction m as [|[k' v'] m IH]; simpl; [discriminate|].
  destruct (decide (k = k')) as [->|Hne].
  - intros [= ->]. left.
  - intros Hg. right. auto.
Qed.

Lemma omap_has_get k m : OMap.has k m = true ↔ is_Some (OMap.get k m).
Proof.
  unfold OMap.has. destruct (OMap.get k m); split; intros Hs;
    try reflexivity; try discriminate; eauto.
  destruct Hs; discriminate.
Qed.

(** [set] never drops a key, and adds only the key it sets. *)
Lemma omap_keys_set k v m k' :
  k' ∈ OMap.keys (OMap.set k v m) ↔ k' = k ∨ k' ∈ OMap.keys m.
Proof.
  unfold OMap.keys. induction m as [|[k0 v0] m IH]; simpl.
  - rewrite list_elem_of_singleton, elem_of_nil. tauto.
  - destruct (decide (k = k0)) as [->|Hne]; simpl;
      rewrite !elem_of_cons, ?IH; tauto.
Qed.

End omap_facts.

(** ** The bounded inbox *)

Section inbox_facts.
Import InMemory.
Implicit Types (mh : gmap Name (list Payload)) (msg : Payload) (k : Name).

Lemma saveMessage_lookup k msg mh :
  saveMessage k msg mh !! k = Some (trimmed (default [] (mh !! k) ++ [msg])).
Proof.
  unfold saveMessage, trimmed.
  destruct (mh !! k) as [l|] eqn:Hk; simpl.
  - now rewrite lookup_insert_eq, Hk.
  - now rewrite !lookup_insert_eq.
Qed.

Lemma saveMessage_lookup_ne k k' msg mh :
  k ≠ k' → saveMessage k msg mh !! k' = mh !! k'.
Proof.
  intros Hne. unfold saveMessage.
  destruct (mh !! k) as [l|] eqn:Hk; simpl;
    now rewrite ?lookup_insert_ne by done.
Qed.

Lemma length_trimmed_snoc (l : list Payload) msg :
  (length l ≤ 1000)%nat → (length (trimmed (l ++ [msg])) ≤ 1000)%nat.
Proof.
  intros Hl. unfold trimmed.
  destruct (Nat.ltb_spec 1000 (length (l ++ [msg]))) as [Hlt|Hge]; [|lia].
  destruct l as [|x l]; cbn [app tail length] in *; [lia|].
  rewrite length_app. cbn [length]. lia.
Qed.

Lemma saveMessage_bounded k msg mh :
  inboxes_bounded mh → inboxes_bounded (saveMessage k msg mh).
Proof.
  intros Hb k' l. destruct (decide (k = k')) as [<-|Hne].
  - rewrite saveMessage_lookup. intros [= <-].
    apply length_trimmed_snoc.
    destruct (mh !! k) as [l0|] eqn:Hk; cbn [default]; [eauto | cbn [length]; lia].
  - rewrite saveMessage_lookup_ne by done. apply Hb.
Qed.

Lemma newest_short (l : list Payload) :
  (length l ≤ 1000)%nat → newest l = l.
Proof.
  intros Hl. unfold newest. now replace (length l - 1000)%nat with 0%nat by lia.
Qed.

Lemma length_newest (l : list Payload) :
  length (newest l) = Nat.min (length l) 1000.
Proof. unfold newest. rewrite length_drop. lia. Qed.

(** One more [push] on the newest 1000 keeps the newest 1000. *)
Lemma trimmed_newest_snoc (l : list Payload) msg :
  trimmed (newest l ++ [msg]) = newest (l ++ [msg]).
Proof.
  unfold trimmed. rewrite length_app, length_newest. simpl.
  destruct (Nat.ltb_spec 1000 (Nat.min (length l) 1000 + 1)) as [Hlt|Hge].
  - unfold newest. rewrite length_app. simpl.
    replace (length l + 1 - 1000)%nat with (S (length l - 1000)) by lia.
    rewrite drop_app_le by lia.
    destruct (drop (length l - 1000) l) as [|x d] eqn:Hd.
    + apply (f_equal length) in Hd. rewrite length_drop in Hd. simpl in Hd. lia.
    + simpl. f_equal.
      change d with (drop 1 (x :: d)). rewrite <- Hd, drop_drop.
      f_equal. lia.
  - rewrite (newest_short l) by lia.
    rewrite newest_short; [reflexivity|]. rewrite length_app. simpl. lia.
Qed.

Lemma save_all_lookup k (msgs acc : list Payload) mh :
  default [] (mh !! k) = newest acc →
  default [] (save_all k msgs mh !! k) = newest (acc ++ msgs).
Proof.
  unfold save_all. revert acc mh.
  induction msgs as [|msg msgs IH]; intros acc mh Hacc; simpl.
  - now rewrite app_nil_r.
  - replace (acc ++ msg :: msgs) with ((acc ++ [msg]) ++ msgs)
      by now rewrite <- app_assoc.
    apply IH. rewrite saveMessage_lookup. simpl.
    rewrite Hacc. apply trimmed_newest_snoc.
Qed.

Lemma save_all_is_Some k msg (msgs : list Payload) mh :
  is_Some (save_all k (msg :: msgs) mh !! k).
Proof.
  unfold save_all. simpl.
  assert (Hs : is_Some (saveMessage k msg mh !! k))
    by (rewrite saveMessage_lookup; eauto).
  revert Hs. generalize (saveMessage k msg mh). clear mh.
  induction msgs as [|m msgs IH]; intros mh Hs; simpl; [assumption|].
  apply IH. rewrite saveMessage_lookup. eauto.
Qed.

End inbox_facts.

(** ** Search *)

Section search.
Import InMemory.




End search.

(** ** History bound *)

Section history_bound.
Import InMemory.

Lemma handle_history_bounded c ev sk st :
  inboxes_bounded (messageHistory st) →
  inboxes_bounded (messageHistory (handle c ev sk st).1.2).
Proof.
  intros Hb. destruct ev; simpl; try assumption.
  - now do 2 apply saveMessage_bounded.
  - unfold send_group. destruct (rooms st !! room_id); [|assumption].
    destruct (negb _); assumption.
  - unfold update_status. destruct (_ && _); [|assumption].
    destruct (OMap.get _ _); assumption.
  - unfold disconnect. destruct (_ && _); [|assumption].
    destruct (OMap.get _ _); assumption.
Qed.

Lemma step_history_bounded w i :
  inboxes_bounded (messageHistory (server w)) →
  inboxes_bounded (messageHistory (server (step w i).1)).
Proof.
  intros Hb. destruct i as [[c s] ev]. unfold step.
  pose proof (handle_history_bounded c ev
                (default (new_socket s) (sockets w !! s)) (server w) Hb) as Hh.
  destruct (handle c ev _ _) as [[sk' st'] outs]. exact Hh.
Qed.

Lemma run_cons w i evs :
  (run w (i :: evs)).1 = (run (step w i).1 evs).1.
Proof. destruct evs; reflexivity. Qed.

Lemma run_history_bounded evs w :
  inboxes_bounded (messageHistory (server w)) →
  inboxes_bounded (messageHistory (server (run w evs).1)).
Proof.
  revert w. induction evs as [|i evs IH]; intros w Hb; [assumption|].
  rewrite run_cons. apply IH, step_history_bounded, Hb.
Qed.

Lemma saveMessage_full (k : Name) (msg : Payload) mh l :
  mh !! k = Some l → length l = 1000%nat →
  saveMessage k msg mh !! k = Some (tail l ++ [msg]).
Proof.
  intros Hk Hl. rewrite saveMessage_lookup, Hk. cbn [default from_option Datatypes.id].
  unfold trimmed. rewrite length_app, Hl.
  destruct l as [|x l]; [discriminate|]. reflexivity.
Qed.

Lemma save_all_overflow (k : Name) (msgs : list Payload) :
  length msgs = 1001%nat → save_all k msgs ∅ !! k = Some (tail msgs).
Proof.
  intros Hl.
  pose proof (save_all_lookup k msgs [] ∅) as Hd.
  rewrite lookup_empty in Hd. specialize (Hd eq_refl).
  destruct msgs as [|m msgs]; [discriminate|].
  destruct (save_all_is_Some k m msgs ∅) as [stored Hs].
  rewrite Hs in *. cbn [default from_option Datatypes.id] in Hd. subst stored.
  unfold newest. rewrite app_nil_l, Hl. reflexivity.
Qed.

(** C2 (as amended). Every per-user inbox of [messageHistory] holds at
    most 1000 messages in every state the server reaches; a save into a
    full inbox drops its oldest message and appends the new one; and
    after 1001 saves into a new inbox the stored history is the last 1000
    of them, so the last saved is present and the first, when it differs
    from the later ones, is absent. *)
Theorem inbox_history_bounded :
  (∀ evs k l,
      messageHistory (server (after evs)) !! k = Some l →
      (length l ≤ 1000)%nat)
  ∧ (∀ (k : Name) (msg : Payload) mh l,
        mh !! k = Some l → length l = 1000%nat →
        saveMessage k msg mh !! k = Some (tail l ++ [msg]))
  ∧ (∀ (k : Name) (first_ : Payload) rest,
        length (first_ :: rest) = 1001%nat →
        ∃ stored,
          save_all k (first_ :: rest) ∅ !! k = Some stored
          ∧ length stored = 1000%nat
          ∧ (∀ m, last rest = Some m → m ∈ stored)
          ∧ (first_ ∉ rest → first_ ∉ stored)).
Proof.
  split; [|split].
  - intros evs. unfold after. apply run_history_bounded.
    intros k l. cbn. now rewrite lookup_empty.
  - apply saveMessage_full.
  - intros k first_ rest Hl. exists rest. split; [|split; [|split]].
    + now rewrite save_all_overflow.
    + cbn [length] in Hl. lia.
    + intros m Hm. destruct rest as [|x rest' _] using rev_ind;
        [discriminate|].
      rewrite last_snoc in Hm. injection Hm as ->.
      apply elem_of_app. right. left.
    + trivial.
Qed.

End history_bound.

(** ** Rejected sends, database-backed server *)

Section persistent_rejections.
Import Persistent.
Context {DB : Type} `{Repositories DB}.

(** The state after one more emitted event, everything else kept. *)
Lemma send_group_not_member time room msg fd sk (s : State DB) :
  isMember room (id (user sk)) (db s) = inr false →
  send_group time room msg fd sk s
  = (Some tt,
     {| db := db s; connectedUsers := connectedUsers s;
        emitted := emitted s
          ++ [Emit (sid sk) (error "Você não é membro deste grupo")] |}).
Proof.
  intros Hm. unfold send_group, try_catch, bind, query. now rewrite Hm.
Qed.

Lemma send_private_unknown_user time to_ msg fd sk (s : State DB) :
  findByUsername to_ (db s) = inr None →
  send_private time to_ msg fd sk s
  = (Some tt,
     {| db := db s; connectedUsers := connectedUsers s;
        emitted := emitted s
          ++ [Emit (sid sk) (error "Usuário não encontrado")] |}).
Proof.
  intros Hu. unfold send_private, try_catch, bind, query. now rewrite Hu.
Qed.

End persistent_rejections.

(** ** Rejected sends, in-memory server *)

Section rejections.
Import InMemory.

Lemma send_group_dropped c room_id msg sk st :
  ¬ member_of st room_id (currentUser sk) →
  send_group c room_id msg sk st = (sk, st, []).
Proof.
  intros Hn. unfold send_group.
  destruct (rooms st !! room_id) as [room|] eqn:Hr; [|reflexivity].
  unfold array_includes. destruct (bool_decide_reflect (currentUser sk ∈ members room))
    as [Hin|Hout]; [|reflexivity].
  exfalso. apply Hn. now exists room.
Qed.

Lemma emit_if_online_unknown us nm ev :
  OMap.get nm us = None → emit_if_online us nm ev = [].
Proof. intros Hg. unfold emit_if_online. now rewrite Hg. Qed.

Lemma send_private_stored c to_ msg sk st :
  OMap.get (Some to_) (users st) = None →
  let payload :=
    {| id := (now c, random c); from := currentUser sk; to := Some to_;
       roomId := None; message := msg; timestamp := localeTime c;
       type := private |} in
  send_private c to_ msg sk st
  = (sk,
     with_history st
       (saveMessage (Some to_) payload
          (saveMessage (currentUser sk) payload (messageHistory st))),
     [Emit (sid sk) (message_sent payload)]).
Proof.
  intros Hg payload. unfold send_private. cbn [users with_history].
  now rewrite emit_if_online_unknown.
Qed.

End rejections.

(** C1 (as amended). A [send_group] whose sender is not in the member list
    of the target room, or whose room id is unknown, persists nothing and
    delivers nothing. The in-memory server returns without emitting any
    event; the database-backed server emits one [error] event to the
    sender, carrying a message and no code. *)
Theorem send_group_non_member_rejected :
  (∀ c room_id msg sk st,
      ¬ member_of st room_id (InMemory.currentUser sk) →
      InMemory.send_group c room_id msg sk st = (sk, st, []))
  ∧ (∀ DB (R : Persistent.Repositories DB) time room msg fd sk
       (s : Persistent.State DB),
        Persistent.isMember room (Persistent.id (Persistent.user sk))
                            (Persistent.db s) = inr false →
        Persistent.send_group time room msg fd sk s
        = (Some tt,
           {| Persistent.db := Persistent.db s;
              Persistent.connectedUsers := Persistent.connectedUsers s;
              Persistent.emitted := Persistent.emitted s
                ++ [Persistent.Emit (Persistent.sid sk)
                      (Persistent.error "Você não é membro deste grupo")] |})).
Proof.
  split.
  - apply send_group_dropped.
  - intros DB R. apply send_group_not_member.
Qed.

(** C1, witness: Alice sends into Bob's one-member group on the in-memory
    server, and into the private room of Bob and Carol on the
    database-backed server. *)
Lemma send_group_non_member_rejected_witness :
  InMemory.send_group Examples.clock0 (InMemory.group_id Examples.clock0) "hi"
      Examples.alice_socket (InMemory.server (after Examples.bob_alone))
  = (Examples.alice_socket, InMemory.server (after Examples.bob_alone), [])
  ∧ Persistent.emitted
      (Persistent.send_group "10:00" 1%N "hi" None Examples.alice_db_socket
         Examples.connected_state).2
    = [Persistent.Emit "s1" (Persistent.error "Você não é membro deste grupo")].
Proof.
  split.
  - apply (proj1 send_group_non_member_rejected).
    intros (room & Hr & Hin). vm_compute in Hr. injection Hr as <-.
    apply list_elem_of_In in Hin. cbn in Hin. intuition discriminate.
  - rewrite (proj2 send_group_non_member_rejected); [reflexivity|].
    vm_compute. reflexivity.
Defined.

(** C1, counterexample: on the in-memory server a non-member's [send_group]
    reaches nobody, the sender included: no error is surfaced. *)
Lemma send_group_non_member_no_error :
  InMemory.delivered "s1"
    (emitted_by
       (Examples.bob_alone
          ++ [(Examples.clock0, "s1",
               InMemory.SendGroup (InMemory.group_id Examples.clock0) "hi")]))
  = [].
Proof. vm_compute. reflexivity. Qed.

(** C7 (as amended). A [send_private] whose target name resolves to no
    user: the database-backed server emits one [error] event to the sender
    and creates and delivers nothing; the in-memory server, which files
    messages under the target's name for a later [set_username], appends
    the message to the sender's inbox and to the inbox of that name,
    delivers it to nobody, and acknowledges the sender with
    [message_sent]. *)
Theorem send_private_unknown_target :
  (∀ DB (R : Persistent.Repositories DB) time to_ msg fd sk
     (s : Persistent.State DB),
      Persistent.findByUsername to_ (Persistent.db s) = inr None →
      Persistent.send_private time to_ msg fd sk s
      = (Some tt,
         {| Persistent.db := Persistent.db s;
            Persistent.connectedUsers := Persistent.connectedUsers s;
            Persistent.emitted := Persistent.emitted s
              ++ [Persistent.Emit (Persistent.sid sk)
                    (Persistent.error "Usuário não encontrado")] |}))
  ∧ (∀ c to_ msg sk st,
        OMap.get (Some to_) (InMemory.users st) = None →
        ∃ payload,
          InMemory.message payload = msg
          ∧ InMemory.from payload = InMemory.currentUser sk
          ∧ InMemory.to payload = Some to_
          ∧ InMemory.send_private c to_ msg sk st
            = (sk,
               InMemory.with_history st
                 (InMemory.saveMessage (Some to_) payload
                    (InMemory.saveMessage (InMemory.currentUser sk) payload
                       (InMemory.messageHistory st))),
               [InMemory.Emit (InMemory.sid sk) (InMemory.message_sent payload)])).
Proof.
  split.
  - intros DB R. apply send_private_unknown_user.
  - intros c to_ msg sk st Hg.
    exists {| InMemory.id := (InMemory.now c, InMemory.random c);
              InMemory.from := InMemory.currentUser sk;
              InMemory.to := Some to_; InMemory.roomId := None;
              InMemory.message := msg;
              InMemory.timestamp := InMemory.localeTime c;
              InMemory.type := InMemory.private |}.
    repeat split. now apply send_private_stored.
Qed.

(** C7, witness: Alice writes to the unknown name [ghost] on both servers. *)
Lemma send_private_unknown_target_witness :
  Persistent.emitted
    (Persistent.send_private "10:00" "ghost" "hi" None Examples.alice_db_socket
       Examples.connected_state).2
  = [Persistent.Emit "s1" (Persistent.error "Usuário não encontrado")]
  ∧ ∃ payload,
      (InMemory.send_private Examples.clock0 "ghost" "hi" Examples.alice_socket
         Examples.two_online).2
      = [InMemory.Emit "s1" (InMemory.message_sent payload)].
Proof.
  split.
  - rewrite (proj1 send_private_unknown_target); [reflexivity|].
    vm_compute. reflexivity.
  - destruct (proj2 send_private_unknown_target Examples.clock0 "ghost" "hi"
                Examples.alice_socket Examples.two_online)
      as (payload & _ & _ & _ & Hs); [vm_compute; reflexivity|].
    exists payload. now rewrite Hs.
Defined.

(** C7, counterexample: on the in-memory server a message to the unknown
    name [ghost] is stored under that name and under the sender's, and the
    sender receives [message_sent], not an error. *)
Lemma send_private_unknown_target_stored :
  let w := after (Examples.alice_and_bob
                    ++ [(Examples.clock0, "s1", InMemory.SendPrivate "ghost" "hi")]) in
  let outs := emitted_by (Examples.alice_and_bob
                    ++ [(Examples.clock0, "s1", InMemory.SendPrivate "ghost" "hi")]) in
  ∃ payload,
    InMemory.message payload = "hi"
    ∧ inbox (InMemory.server w) (Some "ghost") = [payload]
    ∧ inbox (InMemory.server w) (Some "alice") = [payload]
    ∧ outs = [InMemory.Emit "s1" (InMemory.message_sent payload)].
Proof. eexists. vm_compute. repeat split; reflexivity. Qed.

(** ** Disconnect *)

Section disconnect_facts.
Import InMemory.

(** C3 (as amended). A [disconnect] on a connection whose [currentUser]
    is a non-empty name present in [users] marks that user offline and
    refreshes [lastSeen], whatever [socketId] the entry holds: the entry
    stays in the map with its stored [socketId], avatar and status, no
    other entry changes, and the user lists are sent again. The handler
    compares no connection handle. *)
Theorem disconnect_marks_offline c sk st user :
  truthy (currentUser sk) = true →
  OMap.get (currentUser sk) (users st) = Some user →
  ∃ st',
    disconnect c sk st = (sk, st', sendUserLists st')
    ∧ OMap.get (currentUser sk) (users st')
      = Some {| socketId := socketId user; online := false;
                avatar := avatar user; lastSeen := isoString c;
                status := status user |}
    ∧ (∀ other, other ≠ currentUser sk →
                OMap.get other (users st') = OMap.get other (users st))
    ∧ rooms st' = rooms st
    ∧ messageHistory st' = messageHistory st.
Proof.
  intros Ht Hg. unfold disconnect, OMap.has. rewrite Ht, Hg. cbn [andb].
  eexists. split; [reflexivity|]. cbn [users with_users rooms messageHistory].
  split; [apply omap_get_set_eq|]. split; [|auto].
  intros other Hne. apply omap_get_set_ne. congruence.
Qed.

(** A connection that never registered a name, or whose name is not in
    [users], disconnects without any effect. *)
Lemma disconnect_unregistered c sk st :
  truthy (currentUser sk) = false ∨ OMap.get (currentUser sk) (users st) = None →
  disconnect c sk st = (sk, st, []).
Proof.
  intros [Ht|Hg]; unfold disconnect, OMap.has.
  - now rewrite Ht.
  - rewrite Hg. now rewrite andb_false_r.
Qed.

End disconnect_facts.

(** C3, witness: Alice, registered on [s1], disconnects. *)
Lemma disconnect_marks_offline_witness :
  InMemory.online
    <$> OMap.get (Some "alice")
          (InMemory.users
             (InMemory.disconnect Examples.clock1 Examples.alice_socket
                Examples.two_online).1.2)
  = Some false.
Proof.
  destruct (disconnect_marks_offline Examples.clock1 Examples.alice_socket
              Examples.two_online
              {| InMemory.socketId := "s1"; InMemory.online := true;
                 InMemory.avatar := None;
                 InMemory.lastSeen := InMemory.isoString Examples.clock0;
                 InMemory.status := None |})
    as (st' & Hd & Hg & _); [reflexivity | vm_compute; reflexivity |].
  rewrite Hd. cbn [fst snd].
  exact (f_equal (fmap InMemory.online) Hg).
Defined.

(** C3, counterexample: Alice registers on [s1], then on [s2]; the late
    disconnect of [s1] marks her offline although the entry holds the newer
    connection [s2]. *)
Lemma late_disconnect_marks_newer_offline :
  OMap.get (Some "alice") (InMemory.users (InMemory.server (after Examples.late_disconnect)))
  = Some {| InMemory.socketId := "s2"; InMemory.online := false;
            InMemory.avatar := None;
            InMemory.lastSeen := "2024-01-01T10:01:00.000Z";
            InMemory.status := None |}.
Proof. vm_compute. reflexivity. Qed.

(** C2, witness: the inboxes after 1001 private messages from Alice to
    Bob, a save into a full inbox, and 1001 numbered messages saved into a
    new inbox. *)
Lemma inbox_history_bounded_witness :
  (length (inbox (InMemory.server (after Examples.private_flood)) (Some "bob"))
   ≤ 1000)%nat
  ∧ InMemory.saveMessage (Some "bob") (Examples.numbered 1000)
      {[ Some "bob" := tail Examples.flood_messages ]} !! Some "bob"
    = Some (tail (tail Examples.flood_messages) ++ [Examples.numbered 1000])
  ∧ ∃ stored,
      save_all (Some "bob") Examples.flood_messages ∅ !! Some "bob" = Some stored
      ∧ Examples.numbered 1000 ∈ stored
      ∧ Examples.numbered 0 ∉ stored.
Proof.
  destruct inbox_history_bounded as (Hbound & Hfull & Hflood).
  split; [|split].
  - unfold inbox.
    destruct (InMemory.messageHistory _ !! _) as [l|] eqn:Hl;
      cbn [default from_option Datatypes.id length];
      [exact (Hbound _ _ _ Hl) | lia].
  - apply Hfull; vm_compute; reflexivity.
  - destruct (Hflood (Some "bob") (Examples.numbered 0)
                (map Examples.numbered (seq 1 1000)))
      as (stored & Hs & _ & Hlast & Hfirst); [vm_compute; reflexivity|].
    exists stored. split; [exact Hs|]. split.
    + apply Hlast. vm_compute. reflexivity.
    + apply Hfirst. apply (bool_decide_unpack _). vm_compute. exact I.
Defined.

(** C2, counterexample: a group room is not bounded. After Alice's 1001
    messages into one group the room stores all 1001 of them. *)
Lemma group_history_exceeds_capacity :
  length <$> (InMemory.messages
                <$> InMemory.rooms (InMemory.server (after Examples.group_flood))
                      !! InMemory.group_id Examples.clock0)
  = Some 1001%nat.
Proof. vm_compute. reflexivity. Qed.

(** ** Groups *)

Section groups.
Import InMemory.

(** C4 (as amended). [create_group] never fails: it always stores a room
    under the new id, whose member list is the requested members followed
    by the creator, duplicates kept and no minimum size checked; as a set
    it is the requested members together with the creator. *)
Theorem create_group_members c groupName (mems : list string) sk st :
  ∃ st' outs room,
    create_group c groupName mems sk st = (sk, st', outs)
    ∧ rooms st' !! group_id c = Some room
    ∧ members room = map Some mems ++ [currentUser sk]
    ∧ (∀ nm, nm ∈ members room ↔ nm ∈ map Some mems ∨ nm = currentUser sk)
    ∧ messages room = []
    ∧ createdBy room = currentUser sk.
Proof.
  do 3 eexists. split; [reflexivity|]. cbn [rooms with_rooms].
  split; [apply lookup_insert_eq|]. cbn [members messages createdBy].
  repeat split; try tauto.
  - rewrite elem_of_app, list_elem_of_singleton. tauto.
  - rewrite elem_of_app, list_elem_of_singleton. tauto.
Qed.

Lemma delivered_app s (a b : list Out) :
  delivered s (a ++ b) = delivered s a ++ delivered s b.
Proof. apply omap_app. Qed.

Lemma delivered_one s t ev :
  delivered s [Emit t ev] = if decide (t = s) then [ev] else [].
Proof. unfold delivered. cbn. destruct (decide (t = s)); reflexivity. Qed.

Lemma occurrences_cons nm m (l : list Name) :
  occurrences nm (m :: l)
  = if decide (m = nm) then S (occurrences nm l) else occurrences nm l.
Proof.
  unfold occurrences. rewrite filter_cons.
  destruct (decide (m = nm)); reflexivity.
Qed.

Lemma occurrences_not_elem nm (l : list Name) :
  nm ∉ l → occurrences nm l = 0%nat.
Proof.
  induction l as [|m l IH]; intros Hn; [reflexivity|].
  apply not_elem_of_cons in Hn as [Hne Hn].
  rewrite occurrences_cons, decide_False by congruence. auto.
Qed.

Lemma occurrences_NoDup nm (l : list Name) :
  NoDup l → occurrences nm l = if bool_decide (nm ∈ l) then 1%nat else 0%nat.
Proof.
  induction 1 as [|m l Hm Hnd IH]; [reflexivity|].
  rewrite occurrences_cons. destruct (decide (m = nm)) as [->|Hne].
  - rewrite occurrences_not_elem by assumption.
    rewrite bool_decide_eq_true_2; [reflexivity | left].
  - rewrite IH. apply f_equal with (f := fun b : bool => if b then 1%nat else 0%nat).
    apply bool_decide_ext. rewrite elem_of_cons.
    intuition congruence.
Qed.

(** The copies of one fan-out that are addressed to the socket stored for
    [u]: one per occurrence of [u] in the list when [u] is online. *)
Lemma fan_out_copies us ev u info (l : list Name) :
  OMap.get u us = Some info →
  (∀ v info', v ∈ l → OMap.get v us = Some info' →
              online info' = true → socketId info' = socketId info → v = u) →
  delivered (socketId info) (flat_map (fun m => emit_if_online us m ev) l)
  = replicate (if online info then occurrences u l else 0%nat) ev.
Proof.
  intros Hu. induction l as [|m l IH]; intros Hinj.
  - now destruct (online info).
  - cbn [flat_map]. rewrite delivered_app, IH, occurrences_cons
      by (intros v i Hv; apply Hinj; now right).
    unfold emit_if_online.
    destruct (OMap.get m us) as [i|] eqn:Hm.
    + destruct (online i) eqn:Hon.
      * rewrite delivered_one.
        destruct (decide (socketId i = socketId info)) as [Hs|Hs].
        -- assert (m = u) as -> by (eapply Hinj; eauto; left).
           assert (i = info) as -> by congruence.
           rewrite Hon, decide_True by reflexivity. reflexivity.
        -- rewrite decide_False; [reflexivity|]. intros ->.
           apply Hs. congruence.
      * destruct (decide (m = u)) as [->|Hne]; [|reflexivity].
        assert (i = info) as -> by congruence. now rewrite Hon.
    + rewrite decide_False; [reflexivity|]. intros ->. congruence.
Qed.

(** C5 (as amended). A message routed into a room by one of its members
    is delivered once per occurrence in the room's member list: a user
    who is marked online and listed k times receives k copies on the
    stored connection, and a user who is offline or not listed receives
    none. When the member list has no duplicates, which [create_group]
    does not ensure, every online member, the sender included, receives
    exactly one copy. Distinct users are taken to hold distinct
    connections. *)
Theorem send_group_fan_out c room_id msg sk st room u info :
  rooms st !! room_id = Some room →
  currentUser sk ∈ members room →
  OMap.get u (users st) = Some info →
  (∀ v info', v ∈ members room → OMap.get v (users st) = Some info' →
              online info' = true → socketId info' = socketId info → v = u) →
  ∃ payload st' outs,
    send_group c room_id msg sk st = (sk, st', outs)
    ∧ message payload = msg
    ∧ from payload = currentUser sk
    ∧ roomId payload = Some room_id
    ∧ delivered (socketId info) outs
      = replicate (if online info then occurrences u (members room) else 0%nat)
                  (receive_group payload)
    ∧ (NoDup (members room) →
       delivered (socketId info) outs
       = if online info && bool_decide (u ∈ members room)
         then [receive_group payload] else []).
Proof.
  intros Hr Hin Hu Hinj. unfold send_group. rewrite Hr.
  unfold array_includes. rewrite bool_decide_eq_true_2 by assumption.
  cbn [negb]. do 3 eexists. split; [reflexivity|].
  cbn [message from roomId users with_rooms members].
  rewrite (fan_out_copies _ _ u info) by assumption.
  repeat split; try reflexivity.
  intros Hnd. rewrite occurrences_NoDup by assumption.
  destruct (online info), (bool_decide (u ∈ members room)); reflexivity.
Qed.

End groups.

(** C4, counterexample: a group requested with no members is created with
    the creator alone, and a creator who lists herself is stored twice; no
    error is raised in either case. *)
Lemma create_group_small_or_duplicated :
  InMemory.members
    <$> InMemory.rooms (InMemory.server (after Examples.bob_alone))
          !! InMemory.group_id Examples.clock0
  = Some [Some "bob"]
  ∧ emitted_by Examples.bob_alone
    = [InMemory.Emit "s2"
         (InMemory.group_created (InMemory.group_id Examples.clock0) "solo"
            [Some "bob"] (Some "bob"))]
  ∧ InMemory.members
      <$> InMemory.rooms (InMemory.server (after Examples.alice_listed_twice))
            !! InMemory.group_id Examples.clock0
    = Some [Some "alice"; Some "bob"; Some "alice"].
Proof. vm_compute. repeat split; reflexivity. Qed.

(** C5, witness: Alice writes into the group she created with Bob; Bob's
    connection [s2] receives one copy. *)
Lemma send_group_fan_out_witness :
  ∃ payload,
    InMemory.delivered "s2"
      (InMemory.send_group Examples.clock1 (InMemory.group_id Examples.clock0)
         "hi" Examples.alice_socket
         (InMemory.server (after Examples.alice_group))).2
    = [InMemory.receive_group payload].
Proof.
  destruct (send_group_fan_out Examples.clock1 (InMemory.group_id Examples.clock0)
              "hi" Examples.alice_socket
              (InMemory.server (after Examples.alice_group))
              {| InMemory.name := "devs";
                 InMemory.members := [Some "bob"; Some "alice"];
                 InMemory.messages := [];
                 InMemory.createdBy := Some "alice";
                 InMemory.createdAt := InMemory.isoString Examples.clock0 |}
              (Some "bob")
              {| InMemory.socketId := "s2"; InMemory.online := true;
                 InMemory.avatar := None;
                 InMemory.lastSeen := InMemory.isoString Examples.clock0;
                 InMemory.status := None |})
    as (payload & st' & outs & Hs & _ & _ & _ & _ & Hone).
  - vm_compute. reflexivity.
  - right. left.
  - vm_compute. reflexivity.
  - intros v info' Hv Hg _ Hsock.
    apply elem_of_cons in Hv as [->|Hv]; [reflexivity|].
    apply list_elem_of_singleton in Hv as ->.
    vm_compute in Hg. injection Hg as <-. discriminate Hsock.
  - exists payload. rewrite Hs. cbn [snd].
    assert (Hnd : NoDup [Some "bob"; Some "alice"])
      by (apply (bool_decide_unpack _); vm_compute; exact I).
    exact (Hone Hnd).
Defined.

(** C5, counterexample: Alice creates a group listing herself and Bob, so
    the stored member list names her twice; her message into the group is
    delivered twice to her own connection. *)
Lemma listed_twice_delivered_twice :
  ∃ payload,
    InMemory.delivered "s1"
      (emitted_by
         (Examples.alice_listed_twice
            ++ [(Examples.clock1, "s1",
                 InMemory.SendGroup (InMemory.group_id Examples.clock0) "hi")]))
    = [InMemory.receive_group payload; InMemory.receive_group payload].
Proof. eexists. vm_compute. reflexivity. Qed.

(** ** Presence *)

Section presence.
Import InMemory.

Lemma filteredUsers_excludes us viewer e :
  e ∈ filteredUsers us viewer → entry_username e ≠ viewer.
Proof.
  unfold filteredUsers, OMap.entries. rewrite list_elem_of_fmap.
  intros ([n i] & -> & Hin). apply list_elem_of_filter in Hin as [Hne _].
  exact Hne.
Qed.

Lemma filteredUsers_includes us viewer n i :
  (n, i) ∈ us → n ≠ viewer → user_entry n i ∈ filteredUsers us viewer.
Proof.
  intros Hin Hne. unfold filteredUsers, OMap.entries.
  apply list_elem_of_fmap. exists (n, i). split; [reflexivity|].
  apply list_elem_of_filter. auto.
Qed.

(** C8 (as amended). On the in-memory server every [user_list] emitted by
    a presence refresh is built for one entry of [users], the viewer, and
    is sent to that entry's connection; it has no element for the viewer
    and one element for every other entry, with that entry's online
    flag, last-seen time and avatar, and its status or ["available"] when
    none is set; and every entry of [users], online or not, is a viewer. *)
Theorem user_list_excludes_viewer st :
  (∀ o, o ∈ sendUserLists st →
        ∃ viewer info l,
          (viewer, info) ∈ users st
          ∧ o = Emit (socketId info) (user_list l)
          ∧ (∀ e, e ∈ l → entry_username e ≠ viewer)
          ∧ (∀ n i, (n, i) ∈ users st → n ≠ viewer →
                    {| entry_username := n; entry_online := online i;
                       entry_lastSeen := lastSeen i; entry_avatar := avatar i;
                       entry_status := or_default (status i) "available" |}
                    ∈ l))
  ∧ (∀ viewer info, (viewer, info) ∈ users st →
        Emit (socketId info) (user_list (filteredUsers (users st) viewer))
        ∈ sendUserLists st).
Proof.
  split.
  - intros o Ho. unfold sendUserLists, OMap.entries in Ho.
    apply list_elem_of_fmap in Ho as ([viewer info] & -> & Hin).
    exists viewer, info, (filteredUsers (users st) viewer).
    split; [assumption|]. split; [reflexivity|]. split.
    + intros e. apply filteredUsers_excludes.
    + intros n i. apply filteredUsers_includes.
  - intros viewer info Hin. unfold sendUserLists, OMap.entries.
    apply list_elem_of_fmap. now exists (viewer, info).
Qed.

(** The three events that refresh presence end with [sendUserLists]. *)
Lemma set_username_refreshes c username av sk st :
  ∃ sk' st' first_,
    set_username c username av sk st = (sk', st', first_ :: sendUserLists st').
Proof. do 3 eexists. reflexivity. Qed.

End presence.

(** C8, witness: after Alice and Bob have registered, the list sent to Bob
    names Alice, online, and nobody else; the list sent to Alice's
    connection has no element for Alice and has one for Bob. *)
Lemma user_list_excludes_viewer_witness :
  InMemory.Emit "s2"
    (InMemory.user_list
       [{| InMemory.entry_username := Some "alice"; InMemory.entry_online := true;
           InMemory.entry_lastSeen := "2024-01-01T10:00:00.000Z";
           InMemory.entry_avatar := None;
           InMemory.entry_status := "available" |}])
  ∈ InMemory.sendUserLists Examples.two_online
  ∧ ∃ l,
      InMemory.Emit "s1" (InMemory.user_list l)
      ∈ InMemory.sendUserLists Examples.two_online
      ∧ (∀ e, e ∈ l → InMemory.entry_username e ≠ Some "alice")
      ∧ {| InMemory.entry_username := Some "bob"; InMemory.entry_online := true;
           InMemory.entry_lastSeen := "2024-01-01T10:00:00.000Z";
           InMemory.entry_avatar := None;
           InMemory.entry_status := "available" |} ∈ l.
Proof.
  destruct (user_list_excludes_viewer Examples.two_online) as [Hall Hevery].
  split.
  - apply (Hevery (Some "bob")
             {| InMemory.socketId := "s2"; InMemory.online := true;
                InMemory.avatar := None;
                InMemory.lastSeen := InMemory.isoString Examples.clock0;
                InMemory.status := None |}).
    vm_compute. right. left.
  - exists (InMemory.filteredUsers (InMemory.users Examples.two_online)
              (Some "alice")).
    assert (Hemit : InMemory.Emit "s1"
                      (InMemory.user_list
                         (InMemory.filteredUsers
                            (InMemory.users Examples.two_online) (Some "alice")))
                    ∈ InMemory.sendUserLists Examples.two_online)
      by (vm_compute; left).
    split; [exact Hemit|].
    destruct (Hall _ Hemit) as (viewer & info & l & Hin & Heq & Hex & Hinc).
    injection Heq as Hs <-. vm_compute in Hin.
    apply elem_of_cons in Hin as [Hin|Hin].
    + injection Hin as -> ->. split; [exact Hex|].
      apply (Hinc (Some "bob")
               {| InMemory.socketId := "s2"; InMemory.online := true;
                  InMemory.avatar := None;
                  InMemory.lastSeen := InMemory.isoString Examples.clock0;
                  InMemory.status := None |});
        [vm_compute; right; left | discriminate].
    + apply list_elem_of_singleton in Hin. injection Hin as -> ->.
      discriminate Hs.
Defined.

Section persistent_presence.
Import Persistent.
Context {DB : Type} `{Repositories DB}.

(** [broadcastUsersList] sends one list, the same to every connection:
    what two sockets receive from it does not differ. *)
Lemma broadcastUsersList_same_for_all (s : State DB) (s1 s2 : SocketId) :
  emitted s = [] →
  delivered s1 (emitted (broadcastUsersList s).2)
  = delivered s2 (emitted (broadcastUsersList s).2).
Proof.
  intros He. unfold broadcastUsersList, try_catch, bind, query, emit, ret.
  destruct (findOnlineUsers (db s)) as [e|rows]; cbn; rewrite He; reflexivity.
Qed.

(** Whatever rows [findOnlineUsers] returns, every connection receives
    exactly those rows: the list does not depend on the viewer. *)
Lemma broadcastUsersList_viewer_independent (s : State DB) rows (sock : SocketId) :
  findOnlineUsers (db s) = inr rows →
  emitted s = [] →
  delivered sock (emitted (broadcastUsersList s).2) = [user_list rows].
Proof.
  intros Hr He. unfold broadcastUsersList, try_catch, bind, query, emit, ret.
  rewrite Hr. cbn. rewrite He. reflexivity.
Qed.

End persistent_presence.

(** C8, counterexample: on the database-backed server, with Alice and Bob
    connected, the presence refresh delivers to Alice's connection a list
    that contains Alice herself, and no offline user. *)
Lemma broadcast_list_includes_viewer :
  Persistent.delivered "s1"
    (Persistent.emitted
       (Persistent.broadcastUsersList Examples.connected_state).2)
  = [Persistent.user_list [Examples.row "alice" true; Examples.row "bob" true]].
Proof. vm_compute. reflexivity. Qed.

(** ** A private message to oneself *)

Section self_send.
Import InMemory.

Lemma trimmed_snoc (l : list Payload) p :
  trimmed (l ++ [p])
  = (if (1000 <=? length l)%nat then tail l else l) ++ [p].
Proof.
  unfold trimmed. rewrite length_app. cbn [length].
  destruct (Nat.leb_spec 1000 (length l)) as [Hge|Hlt].
  - destruct (Nat.ltb_spec 1000 (length l + 1)) as [_|Hle]; [|lia].
    destruct l; [cbn in Hge; lia | reflexivity].
  - destruct (Nat.ltb_spec 1000 (length l + 1)) as [Hgt|_]; [lia|reflexivity].
Qed.

(** Two saves of the same message: it ends the list twice, and at most
    the two oldest messages are dropped. *)
Lemma saved_twice (l : list Payload) p :
  ∃ dropped,
    trimmed (trimmed (l ++ [p]) ++ [p]) = drop dropped l ++ [p; p]
    ∧ (dropped ≤ 2)%nat
    ∧ ((length l + 2 ≤ 1000)%nat → dropped = 0%nat).
Proof.
  rewrite (trimmed_snoc l), trimmed_snoc, length_app. cbn [length].
  destruct (Nat.leb_spec 1000 (length l)) as [Hge|Hlt].
  - exists 2%nat. split; [|lia].
    destruct l as [|x [|y l]]; cbn [length] in Hge; try lia.
    cbn [tail].
    destruct (Nat.leb_spec 1000 (length (y :: l) + 1)) as [_|Hlt];
      [|cbn [length] in Hlt; lia].
    cbn [app tail drop]. now rewrite <- app_assoc.
  - destruct (Nat.leb_spec 1000 (length l + 1)) as [Hge|Hlt'].
    + exists 1%nat. split; [|lia].
      destruct l as [|x l]; cbn [length] in Hge; [lia|].
      cbn [app tail drop]. now rewrite <- app_assoc.
    + exists 0%nat. split; [|lia]. cbn [drop]. now rewrite <- app_assoc.
Qed.

(** C10 (as amended). A [send_private] from a connection of the
    registered user [u] to [u]'s own name raises no error: the same
    payload is appended twice to [u]'s inbox (the oldest messages making
    room when the inbox is full), the sending connection is acknowledged
    with [message_sent], and the payload is delivered to the connection
    stored for [u] when [u] is marked online. *)
Theorem send_private_to_self c u msg sk st info :
  currentUser sk = Some u →
  OMap.get (Some u) (users st) = Some info →
  ∃ payload st' dropped,
    send_private c u msg sk st
    = (sk, st',
       (if online info
        then [Emit (socketId info) (receive_private payload)] else [])
         ++ [Emit (sid sk) (message_sent payload)])
    ∧ message payload = msg
    ∧ from payload = Some u
    ∧ to payload = Some u
    ∧ inbox st' (Some u) = drop dropped (inbox st (Some u)) ++ [payload; payload]
    ∧ (dropped ≤ 2)%nat
    ∧ ((length (inbox st (Some u)) + 2 ≤ 1000)%nat → dropped = 0%nat)
    ∧ users st' = users st
    ∧ rooms st' = rooms st.
Proof.
  intros Hc Hu. unfold send_private. rewrite Hc. cbv zeta.
  cbn [users with_history]. unfold emit_if_online. rewrite Hu.
  set (payload := {| id := (now c, random c); from := Some u; to := Some u;
                     roomId := None; message := msg;
                     timestamp := localeTime c; type := private |}).
  destruct (saved_twice (inbox st (Some u)) payload)
    as (dropped & Hsave & Hle & Hzero).
  exists payload, (with_history st
                     (saveMessage (Some u) payload
                        (saveMessage (Some u) payload (messageHistory st)))),
         dropped.
  split; [reflexivity|]. do 3 (split; [reflexivity|]).
  split; [|auto]. rewrite <- Hsave. unfold inbox. cbn [messageHistory with_history].
  now rewrite !saveMessage_lookup.
Qed.

End self_send.

(** C10, witness: Alice, online on [s1], writes to herself. *)
Lemma send_private_to_self_witness :
  ∃ payload,
    (InMemory.send_private Examples.clock1 "alice" "note" Examples.alice_socket
       Examples.two_online).2
    = [InMemory.Emit "s1" (InMemory.receive_private payload);
       InMemory.Emit "s1" (InMemory.message_sent payload)]
    ∧ inbox (InMemory.send_private Examples.clock1 "alice" "note"
               Examples.alice_socket Examples.two_online).1.2 (Some "alice")
      = [payload; payload].
Proof.
  destruct (send_private_to_self Examples.clock1 "alice" "note"
              Examples.alice_socket Examples.two_online
              {| InMemory.socketId := "s1"; InMemory.online := true;
                 InMemory.avatar := None;
                 InMemory.lastSeen := InMemory.isoString Examples.clock0;
                 InMemory.status := None |})
    as (payload & st' & dropped & Hs & _ & _ & _ & Hin & _ & Hzero & _);
    [reflexivity | vm_compute; reflexivity |].
  exists payload. rewrite Hs. cbn [fst snd]. split; [reflexivity|].
  rewrite Hin, Hzero by (vm_compute; lia). reflexivity.
Defined.

(** C10, counterexample: Alice is registered on [s1] and [s2]; after [s2]
    disconnects her entry is marked offline, and a message that [s1] sends
    to Alice is stored twice and acknowledged but delivered to no
    connection. *)
Lemma self_send_offline_not_delivered :
  ∃ payload,
    emitted_by Examples.self_send_after_disconnect
    = [InMemory.Emit "s1" (InMemory.message_sent payload)]
    ∧ inbox (InMemory.server (after Examples.self_send_after_disconnect))
            (Some "alice")
      = [payload; payload].
Proof. eexists. vm_compute. split; reflexivity. Qed.

(** ** Private rooms *)

Section private_rooms.
Import RoomManager.

Lemma pair_key_comm (a b : N) : pair_key a b = pair_key b a.
Proof. unfold pair_key. now rewrite N.min_comm, N.max_comm. Qed.

Lemma createOrFindPrivateRoom_self (a : N) (rm : t) :
  createOrFindPrivateRoom a a rm = inl ValidationError.
Proof. unfold createOrFindPrivateRoom. now rewrite decide_True. Qed.

(** Once the pair has a room, either order finds it and changes nothing. *)
Lemma createOrFindPrivateRoom_found (a b r : N) (rm : t) :
  a ≠ b → private_index rm !! pair_key a b = Some r →
  createOrFindPrivateRoom a b rm = inr (r, rm)
  ∧ createOrFindPrivateRoom b a rm = inr (r, rm).
Proof.
  intros Hne Hk. unfold createOrFindPrivateRoom.
  rewrite !decide_False by congruence.
  now rewrite <- (pair_key_comm a b), Hk.
Qed.

(** C6. For distinct users [a] and [b], [createOrFindPrivateRoom] returns
    the same room id for [(a, b)] and for [(b, a)]; after a first call a
    repeated call in either order returns that id again and leaves the
    store as it is, so no second room is created; and the call fails
    with [ValidationError] when the two users are the same. *)
Theorem private_room_symmetric_idempotent (a b : N) (rm : t) :
  a ≠ b →
  ∃ r rm_ab rm_ba,
    createOrFindPrivateRoom a b rm = inr (r, rm_ab)
    ∧ createOrFindPrivateRoom b a rm = inr (r, rm_ba)
    ∧ createOrFindPrivateRoom a b rm_ab = inr (r, rm_ab)
    ∧ createOrFindPrivateRoom b a rm_ab = inr (r, rm_ab)
    ∧ createOrFindPrivateRoom a b rm_ba = inr (r, rm_ba)
    ∧ createOrFindPrivateRoom b a rm_ba = inr (r, rm_ba)
    ∧ createOrFindPrivateRoom a a rm = inl ValidationError
    ∧ createOrFindPrivateRoom b b rm = inl ValidationError.
Proof.
  intros Hne.
  destruct (private_index rm !! pair_key a b) as [r|] eqn:Hk.
  - destruct (createOrFindPrivateRoom_found a b r rm Hne Hk) as [Hab Hba].
    exists r, rm, rm. rewrite !createOrFindPrivateRoom_self. auto 10.
  - unfold createOrFindPrivateRoom at 1 2.
    rewrite !decide_False by congruence.
    rewrite <- (pair_key_comm a b), Hk.
    do 3 eexists. split; [reflexivity|]. split; [reflexivity|].
    rewrite !createOrFindPrivateRoom_self.
    repeat split;
      apply createOrFindPrivateRoom_found; try congruence;
      cbn [private_index]; rewrite ?(pair_key_comm b a);
      apply lookup_insert_eq.
Qed.

End private_rooms.

(** C6, witness: the private room of users 1 and 2 in a new store. *)
Lemma private_room_symmetric_idempotent_witness :
  ∃ r rm,
    RoomManager.createOrFindPrivateRoom 1 2 RoomManager.empty = inr (r, rm)
    ∧ RoomManager.createOrFindPrivateRoom 2 1 rm = inr (r, rm).
Proof.
  destruct (private_room_symmetric_idempotent 1 2 RoomManager.empty)
    as (r & rm_ab & rm_ba & Hab & _ & _ & Hba & _); [discriminate|].
  now exists r, rm_ab.
Defined.

(** ** The same events on the database-backed server *)

Section persistent_siblings.
Import Persistent.
Context {DB : Type} `{Repositories DB}.

(** [disconnect] forgets the user's connection whatever socket id is
    stored for the user: no handle is compared here either. *)
Lemma disconnect_forgets_user sk (s : State DB) d :
  updateOnlineStatus (id (user sk)) false (db s) = inr (tt, d) →
  connectedUsers (disconnect sk s).2 !! id (user sk) = None.
Proof.
  intros Hu.
  cbv [disconnect try_catch bind command forget broadcastUsersList
       query emit ret].
  rewrite Hu. cbn [db connectedUsers emitted].
  destruct (findOnlineUsers d); cbn [snd connectedUsers];
    apply lookup_delete_eq.
Qed.

(** [create_group] with an empty member list creates the room, adds the
    creator alone, and notifies the creator: no error is raised. *)
Lemma create_group_creator_alone groupName sk (s : State DB) room d1 d2 :
  createRoom groupName (id (user sk)) (db s) = inr (room, d1) →
  addMember room (id (user sk)) d1 = inr (tt, d2) →
  create_group groupName [] sk s
  = (Some tt,
     {| db := d2; connectedUsers := connectedUsers s;
        emitted := emitted s
          ++ [Emit (sid sk)
                (group_created room groupName [username (user sk)]
                   (username (user sk)))] |}).
Proof.
  intros Hc Ha.
  cbv [create_group try_catch bind command emit ret for_each].
  rewrite Hc. cbn [db connectedUsers emitted]. rewrite Ha. reflexivity.
Qed.

End persistent_siblings.

(** * Further properties *)

(** ** What every reachable state satisfies *)

Section reachable.
Import InMemory.

(** A property that every handler keeps is kept by every sequence of
    events, from any world. *)
Lemma run_preserves (P : Server → Prop) :
  (∀ c ev sk st, P st → P (handle c ev sk st).1.2) →
  ∀ evs w, P (server w) → P (server (run w evs).1).
Proof.
  intros Hstep evs.
  induction evs as [|[[c s] ev] evs IH]; intros w Hw; [exact Hw|].
  rewrite run_cons. apply IH. unfold step.
  pose proof (Hstep c ev (default (new_socket s) (sockets w !! s)) (server w) Hw)
    as Hh.
  destruct (handle c ev _ _) as [[sk' st'] outs]. exact Hh.
Qed.

(** A property of the initial state that every handler keeps holds after
    every sequence of events. *)
Lemma reachable_ind (P : Server → Prop) :
  P empty_server →
  (∀ c ev sk st, P st → P (handle c ev sk st).1.2) →
  ∀ evs, P (server (after evs)).
Proof.
  intros H0 Hstep evs. unfold after. now apply run_preserves.
Qed.

(** The handlers change [users] only by [users.set]. *)
Lemma handle_users c ev sk st :
  users (handle c ev sk st).1.2 = users st
  ∨ ∃ k v, users (handle c ev sk st).1.2 = OMap.set k v (users st).
Proof.
  destruct ev; cbn [handle]; try (left; reflexivity).
  - right. eauto.
  - left. unfold send_group. destruct (rooms st !! room_id); [|reflexivity].
    destruct (negb _); reflexivity.
  - unfold update_status. destruct (_ && _); [|left; reflexivity].
    destruct (OMap.get _ _); [right; eauto | left; reflexivity].
  - unfold disconnect. destruct (_ && _); [|left; reflexivity].
    destruct (OMap.get _ _); [right; eauto | left; reflexivity].
Qed.

Lemma omap_set_keys_order {K V} `{EqDecision K} (k : K) (v : V) m :
  OMap.keys (OMap.set k v m)
  = if decide (k ∈ OMap.keys m) then OMap.keys m else OMap.keys m ++ [k].
Proof.
  unfold OMap.keys. induction m as [|[k0 v0] m IH]; cbn [OMap.set map fst app].
  - rewrite decide_False; [reflexivity | apply not_elem_of_nil].
  - destruct (decide (k = k0)) as [->|Hne]; cbn [map fst].
    + rewrite decide_True; [reflexivity | left].
    + rewrite IH. destruct (decide (k ∈ map fst m)) as [Hin|Hin].
      * rewrite decide_True; [reflexivity | now right].
      * rewrite decide_False; [reflexivity|].
        intros Hc. apply elem_of_cons in Hc as [?|?]; contradiction.
Qed.

Lemma omap_get_key {K V} `{EqDecision K} (k : K) (v : V) m :
  OMap.get k m = Some v → k ∈ OMap.keys m.
Proof.
  unfold OMap.keys. induction m as [|[k0 v0] m IH]; cbn [OMap.get map fst].
  - discriminate.
  - destruct (decide (k = k0)) as [->|Hne]; [left | right; auto].
Qed.

(** Only [set_username] adds a name to [users]; it adds it at the end,
    and only when the name is new. *)
Lemma handle_keys c ev sk st :
  OMap.keys (users (handle c ev sk st).1.2)
  = match ev with
    | SetUsername username _ =>
        if decide (Some username ∈ OMap.keys (users st))
        then OMap.keys (users st)
        else OMap.keys (users st) ++ [Some username]
    | _ => OMap.keys (users st)
    end.
Proof.
  destruct ev; cbn [handle]; try reflexivity.
  - unfold set_username. cbn [fst snd users with_users].
    apply omap_set_keys_order.
  - unfold send_group. destruct (rooms st !! room_id); [|reflexivity].
    destruct (negb _); reflexivity.
  - unfold update_status. destruct (_ && _); [|reflexivity].
    destruct (OMap.get _ _) as [user|] eqn:Hget; [|reflexivity].
    cbn [fst snd users with_users]. rewrite omap_set_keys_order.
    rewrite decide_True; [reflexivity | eapply omap_get_key, Hget].
  - unfold disconnect. destruct (_ && _); [|reflexivity].
    destruct (OMap.get _ _) as [user|] eqn:Hget; [|reflexivity].
    cbn [fst snd users with_users]. rewrite omap_set_keys_order.
    rewrite decide_True; [reflexivity | eapply omap_get_key, Hget].
Qed.

Lemma filter_new_names (seen : list Name) nm (l : list Name) :
  nm ∈ seen →
  filter (fun x => x ∉ seen) (filter (fun x => x ≠ nm) l)
  = filter (fun x => x ∉ seen) l.
Proof.
  intros Hin. rewrite list_filter_filter. apply list_filter_iff.
  intros x. split; [tauto|]. intros Hx. split; [assumption|].
  intros ->. contradiction.
Qed.

Lemma filter_newer_names (seen : list Name) nm (l : list Name) :
  filter (fun x => x ∉ seen ++ [nm]) l
  = filter (fun x => x ∉ seen) (filter (fun x => x ≠ nm) l).
Proof.
  rewrite list_filter_filter. apply list_filter_iff.
  intros x. rewrite elem_of_app, list_elem_of_singleton. tauto.
Qed.

Lemma run_keys evs w :
  OMap.keys (users (server (run w evs).1))
  = OMap.keys (users (server w))
    ++ filter (fun x => x ∉ OMap.keys (users (server w)))
              (Reach.first_occurrences (Reach.registrations evs)).
Proof.
  revert w. induction evs as [|[[c s] ev] evs IH]; intros w.
  - cbn. now rewrite app_nil_r.
  - rewrite run_cons, IH. clear IH. unfold step.
    pose proof (handle_keys c ev (default (new_socket s) (sockets w !! s))
                  (server w)) as Hk.
    destruct (handle c ev _ _) as [[sk' st'] outs]. cbn [fst snd server] in *.
    rewrite Hk. clear Hk.
    destruct ev; try reflexivity.
    change (Reach.registrations ((c, s, SetUsername username av) :: evs))
      with (Some username :: Reach.registrations evs).
    cbn [Reach.first_occurrences].
    destruct (decide (Some username ∈ OMap.keys (users (server w)))) as [Hin|Hin].
    + rewrite filter_cons_False by tauto.
      now rewrite filter_new_names.
    + rewrite filter_cons_True by assumption.
      rewrite filter_newer_names, <- app_assoc. reflexivity.
Qed.

Lemma filter_unseen_nil (l : list Name) :
  filter (fun x => x ∉ ([] : list Name)) l = l.
Proof.
  induction l as [|x l IH]; [reflexivity|].
  rewrite filter_cons_True by apply not_elem_of_nil. now rewrite IH.
Qed.

Lemma first_occurrences_NoDup l : NoDup (Reach.first_occurrences l).
Proof.
  induction l as [|nm l IH]; cbn [Reach.first_occurrences]; [apply NoDup_nil_2|].
  apply NoDup_cons. split.
  - rewrite list_elem_of_filter. tauto.
  - now apply NoDup_filter.
Qed.

Lemma elem_of_first_occurrences (nm : Name) l :
  nm ∈ Reach.first_occurrences l ↔ nm ∈ l.
Proof.
  induction l as [|x l IH]; cbn [Reach.first_occurrences]; [reflexivity|].
  rewrite !elem_of_cons, list_elem_of_filter, IH.
  destruct (decide (nm = x)); tauto.
Qed.

(** X1. [GET /api/users] lists the users in the order in which their
    names were first registered: after any sequence of events from the
    start of the server, its rows are the names of the [set_username]
    events, each once, at the place of its first registration. A name
    registered again, a status update or a disconnect neither moves a row
    nor adds one. *)
Theorem users_listed_in_order_of_first_registration evs :
  let rows := Relay.summary_username <$> Relay.api_users (server (after evs)) in
  rows = Reach.first_occurrences (Reach.registrations evs)
  ∧ NoDup rows
  ∧ (∀ nm, nm ∈ rows ↔ nm ∈ Reach.registrations evs).
Proof.
  assert (Hrows : Relay.summary_username <$> Relay.api_users (server (after evs))
                  = Reach.first_occurrences (Reach.registrations evs)).
  { unfold Relay.api_users, OMap.entries. rewrite <- list_fmap_compose.
    change (OMap.keys (users (server (after evs)))
            = Reach.first_occurrences (Reach.registrations evs)).
    unfold after. rewrite run_keys.
    cbn [empty_world server empty_server users OMap.keys map app].
    apply filter_unseen_nil. }
  cbv zeta. rewrite Hrows. split; [reflexivity|]. split.
  - apply first_occurrences_NoDup.
  - intros nm. apply elem_of_first_occurrences.
Qed.

(** The handlers change [rooms] only by [rooms.set]. *)
Lemma handle_rooms c ev sk st :
  rooms (handle c ev sk st).1.2 = rooms st
  ∨ ∃ r room, rooms (handle c ev sk st).1.2 = <[r := room]> (rooms st).
Proof.
  destruct ev; cbn [handle]; try (left; reflexivity).
  - unfold send_group. destruct (rooms st !! room_id); [|left; reflexivity].
    destruct (negb _); [left; reflexivity | right; eauto].
  - right. eauto.
  - left. unfold update_status. destruct (_ && _); [|reflexivity].
    destruct (OMap.get _ _); reflexivity.
  - left. unfold disconnect. destruct (_ && _); [|reflexivity].
    destruct (OMap.get _ _); reflexivity.
Qed.

(** The handlers change [messageHistory] only by [saveMessage]. *)
Lemma handle_history c ev sk st :
  messageHistory (handle c ev sk st).1.2 = messageHistory st
  ∨ ∃ to_ p,
      from p = currentUser sk ∧ to p = Some to_
      ∧ type p = private ∧ roomId p = None
      ∧ messageHistory (handle c ev sk st).1.2
        = saveMessage (Some to_) p
            (saveMessage (currentUser sk) p (messageHistory st)).
Proof.
  destruct ev; cbn [handle]; try (left; reflexivity).
  - right.
    exists to_, {| id := (now c, random c); from := currentUser sk;
                   to := Some to_; roomId := None; message := msg;
                   timestamp := localeTime c; type := private |}.
    repeat split.
  - left. unfold send_group. destruct (rooms st !! room_id); [|reflexivity].
    destruct (negb _); reflexivity.
  - left. unfold update_status. destruct (_ && _); [|reflexivity].
    destruct (OMap.get _ _); reflexivity.
  - left. unfold disconnect. destruct (_ && _); [|reflexivity].
    destruct (OMap.get _ _); reflexivity.
Qed.

Lemma saveMessage_keeps_keys (k k' : Name) (p : Payload) mh :
  is_Some (mh !! k') → is_Some (saveMessage k p mh !! k').
Proof.
  intros Hs. destruct (decide (k = k')) as [<-|Hne].
  - rewrite saveMessage_lookup. eauto.
  - now rewrite saveMessage_lookup_ne.
Qed.

(** X2. No event removes anything: a name present in [users], a room
    present in [rooms] and an inbox present in [messageHistory] are still
    present after any further sequence of events. *)
Theorem nothing_forgotten w evs :
  let w' := (run w evs).1 in
  (∀ nm, nm ∈ OMap.keys (users (server w)) →
         nm ∈ OMap.keys (users (server w')))
  ∧ (∀ r, is_Some (rooms (server w) !! r) → is_Some (rooms (server w') !! r))
  ∧ (∀ k, is_Some (messageHistory (server w) !! k) →
          is_Some (messageHistory (server w') !! k)).
Proof.
  cbv zeta. split; [|split].
  - intros nm. apply (run_preserves (fun st => nm ∈ OMap.keys (users st))).
    intros c ev sk st Hin.
    destruct (handle_users c ev sk st) as [->|(k & v & ->)]; [assumption|].
    apply omap_keys_set. now right.
  - intros r. apply (run_preserves (fun st => is_Some (rooms st !! r))).
    intros c ev sk st Hs.
    destruct (handle_rooms c ev sk st) as [->|(r' & room & ->)]; [assumption|].
    apply lookup_insert_is_Some. destruct (decide (r' = r)); auto.
  - intros k. apply (run_preserves (fun st => is_Some (messageHistory st !! k))).
    intros c ev sk st Hs.
    destruct (handle_history c ev sk st) as [->|(to_ & p & _ & _ & _ & _ & ->)];
      [assumption|].
    now do 2 apply saveMessage_keeps_keys.
Qed.

Lemma elem_of_trimmed (p : Payload) l : p ∈ trimmed l → p ∈ l.
Proof.
  unfold trimmed. destruct (_ <? _)%nat; [|auto].
  destruct l as [|x l]; [auto|]. cbn [tail]. intros Hin. now right.
Qed.

Lemma saveMessage_elem (k k' : Name) (m p : Payload) mh l :
  saveMessage k m mh !! k' = Some l → p ∈ l →
  (k' = k ∧ p = m) ∨ ∃ l0, mh !! k' = Some l0 ∧ p ∈ l0.
Proof.
  destruct (decide (k = k')) as [<-|Hne].
  - rewrite saveMessage_lookup. intros [= <-] Hin.
    apply elem_of_trimmed, elem_of_app in Hin as [Hin|Hin].
    + right. destruct (mh !! k) as [l0|]; cbn in Hin; [eauto|].
      now apply elem_of_nil in Hin.
    + left. apply list_elem_of_singleton in Hin. auto.
  - rewrite saveMessage_lookup_ne by done. eauto.
Qed.

(** In every reachable state an inbox holds only private messages that
    its owner sent or received. *)
Lemma inbox_private_and_own evs k l p :
  messageHistory (server (after evs)) !! k = Some l → p ∈ l →
  Reach.involves k p ∧ Reach.is_private p.
Proof.
  revert k l p.
  apply (reachable_ind (fun st => ∀ k l p, messageHistory st !! k = Some l →
                                   p ∈ l → Reach.involves k p ∧ Reach.is_private p)).
  - intros k l p. cbn. now rewrite lookup_empty.
  - intros c ev sk st IH k l p.
    destruct (handle_history c ev sk st)
      as [->|(to_ & m & Hf & Ht & Hty & Hr & ->)]; [apply IH|].
    intros Hl Hin.
    apply (saveMessage_elem _ _ _ _ _ _ Hl) in Hin as [[-> ->]|(l1 & Hl1 & Hin)].
    { split; [right; exact Ht | split; assumption]. }
    apply (saveMessage_elem _ _ _ _ _ _ Hl1) in Hin as [[-> ->]|(l0 & Hl0 & Hin)].
    { split; [left; exact Hf | split; assumption]. }
    eapply IH; eauto.
Qed.

(** X3. In every state the server reaches, the inbox kept under a name
    holds only private messages sent by that name or addressed to it; so
    the answer of [search_messages], which reads the caller's inbox, never
    contains a group message or a message between two other users. *)
Theorem search_finds_only_own_private evs query sk :
  (∀ k l p, messageHistory (server (after evs)) !! k = Some l → p ∈ l →
            Reach.involves k p ∧ Reach.is_private p)
  ∧ (∀ found p,
        (search_messages query sk (server (after evs))).2
        = [Emit (sid sk) (search_results found)] →
        p ∈ found →
        Reach.involves (currentUser sk) p ∧ Reach.is_private p).
Proof.
  split; [intros k l p; apply inbox_private_and_own|].
  intros found p Hs Hin. cbn in Hs. injection Hs as <-.
  apply list_elem_of_filter in Hin as [_ Hin].
  destruct (messageHistory (server (after evs)) !! currentUser sk) as [l|] eqn:Hl;
    cbn in Hin; [|now apply elem_of_nil in Hin].
  eapply inbox_private_and_own; eauto.
Qed.

(** X4. In every state the server reaches, each message stored in a room
    is a group message of that room whose sender is in the room's member
    list. *)
Theorem room_messages_from_members evs r room p :
  rooms (server (after evs)) !! r = Some room → p ∈ messages room →
  Reach.is_group_message r p ∧ from p ∈ members room.
Proof.
  revert r room p.
  apply (reachable_ind (fun st => ∀ r room p, rooms st !! r = Some room →
           p ∈ messages room → Reach.is_group_message r p ∧ from p ∈ members room)).
  - intros r room p. cbn. now rewrite lookup_empty.
  - intros c ev sk st IH r room p.
    destruct ev; cbn [handle]; try apply IH.
    + unfold send_group.
      destruct (rooms st !! room_id) as [room0|] eqn:Hr0; [|apply IH].
      unfold array_includes.
      destruct (bool_decide_reflect (currentUser sk ∈ members room0)) as [Hm|Hm];
        cbn [negb]; [|apply IH].
      cbn [rooms with_rooms fst snd].
      destruct (decide (room_id = r)) as [->|Hne].
      * rewrite lookup_insert_eq. intros [= <-]. cbn [messages members].
        intros Hin. apply elem_of_app in Hin as [Hin|Hin].
        -- eapply IH; eauto.
        -- apply list_elem_of_singleton in Hin as ->.
           split; [repeat split|exact Hm].
      * rewrite lookup_insert_ne by done. apply IH.
    + cbn [create_group rooms with_rooms fst snd].
      destruct (decide (group_id c = r)) as [->|Hne].
      * rewrite lookup_insert_eq. intros [= <-]. cbn [messages].
        intros Hin. now apply elem_of_nil in Hin.
      * rewrite lookup_insert_ne by done. apply IH.
    + unfold update_status. destruct (_ && _); [|apply IH].
      destruct (OMap.get _ _); apply IH.
    + unfold disconnect. destruct (_ && _); [|apply IH].
      destruct (OMap.get _ _); apply IH.
Qed.

End reachable.

(** ** Rooms over time *)

Section rooms_over_time.
Import InMemory.

Lemma group_id_inj c c' : group_id c = group_id c' → now c = now c'.
Proof.
  unfold group_id. intros Heq.
  apply (inj (String.app "group_")) in Heq. now apply (inj pretty) in Heq.
Qed.

(** X5. The id of a group is the millisecond of its creation. A
    [create_group] leaves every room created at another millisecond as it
    is, and replaces a room created at the same millisecond: the earlier
    room's members and messages are lost. *)
Theorem create_group_same_millisecond c c' groupName (mems : list string) sk st :
  let st' := (create_group c' groupName mems sk st).1.2 in
  (now c ≠ now c' → rooms st' !! group_id c = rooms st !! group_id c)
  ∧ (now c = now c' →
     rooms st' !! group_id c
     = Some {| name := groupName;
               members := map Some mems ++ [currentUser sk];
               messages := []; createdBy := currentUser sk;
               createdAt := isoString c' |}).
Proof.
  cbv zeta. cbn [create_group fst snd rooms with_rooms]. split.
  - intros Hne. apply lookup_insert_ne. intros Heq.
    apply group_id_inj in Heq. congruence.
  - intros Heq. unfold group_id. rewrite Heq. apply lookup_insert_eq.
Qed.

(** X6. [join_room] checks no membership: once a member has sent a
    message into a room, any connection that joins the room, registered or
    not, is sent the room's whole history, which ends with that message. *)
Theorem join_room_replays_history c room_id msg sk st room joiner :
  rooms st !! room_id = Some room →
  currentUser sk ∈ members room →
  ∃ payload,
    message payload = msg
    ∧ from payload = currentUser sk
    ∧ (Relay.join_room room_id joiner (send_group c room_id msg sk st).1.2).2
      = [Relay.Join (sid joiner) room_id;
         Relay.Emit (sid joiner)
           (Relay.room_history (messages room ++ [payload]))].
Proof.
  intros Hr Hin. unfold send_group. rewrite Hr.
  unfold array_includes. rewrite bool_decide_eq_true_2 by assumption.
  cbn [negb fst snd]. unfold Relay.join_room. cbn [rooms with_rooms snd].
  rewrite lookup_insert_eq. cbn [messages].
  eexists. split; [|split]; [| |reflexivity]; reflexivity.
Qed.

(** A room that does not exist has no history to send: the joining
    socket is only put in the channel. *)
Lemma join_room_unknown room_id joiner st :
  rooms st !! room_id = None →
  (Relay.join_room room_id joiner st).2 = [Relay.Join (sid joiner) room_id].
Proof. intros Hr. unfold Relay.join_room. now rewrite Hr. Qed.

End rooms_over_time.

(** ** Presence over time *)

Section presence_over_time.
Import InMemory.

Lemma omap_set_elem_ne {K V} `{EqDecision K} (k k' : K) (v v' : V) m :
  (k', v') ∈ m → k ≠ k' → (k', v') ∈ OMap.set k v m.
Proof.
  intros Hin Hne. induction m as [|[k0 v0] m IH]; cbn [OMap.set].
  - now apply elem_of_nil in Hin.
  - apply elem_of_cons in Hin as [Heq|Hin].
    + injection Heq as <- <-. rewrite decide_False by done. left.
    + destruct (decide (k = k0)); right; auto.
Qed.

Lemma omap_set_elem {K V} `{EqDecision K} (k : K) (v : V) m :
  (k, v) ∈ OMap.set k v m.
Proof. apply omap_get_elem_of, omap_get_set_eq. Qed.

(** After [users.set(nm, info)], the list sent to any other viewer shows
    [nm] with the fields of [info]. *)
Lemma refreshed_list_shows st nm info viewer vinfo :
  (viewer, vinfo) ∈ users st → viewer ≠ nm →
  let st' := with_users st (OMap.set nm info (users st)) in
  ∃ l, Emit (socketId vinfo) (user_list l) ∈ sendUserLists st'
       ∧ user_entry nm info ∈ l.
Proof.
  intros Hin Hne st'.
  exists (filteredUsers (users st') viewer). split.
  - unfold sendUserLists, OMap.entries. apply list_elem_of_fmap.
    exists (viewer, vinfo). split; [reflexivity|].
    cbn [users with_users st']. apply omap_set_elem_ne; [assumption|congruence].
  - apply filteredUsers_includes; [|congruence].
    cbn [users with_users st']. apply omap_set_elem.
Qed.

(** X7. When a registered user sets a status, every other user in
    [users], online or not, is sent a list that shows the user with the new
    status, or with ["available"] when the new status is the empty string,
    and with the user's online flag, last-seen time and avatar as they
    were. *)
Theorem status_reaches_everyone new_status sk st info viewer vinfo :
  truthy (currentUser sk) = true →
  OMap.get (currentUser sk) (users st) = Some info →
  (viewer, vinfo) ∈ users st →
  viewer ≠ currentUser sk →
  ∃ l,
    Emit (socketId vinfo) (user_list l) ∈ (update_status new_status sk st).2
    ∧ {| entry_username := currentUser sk; entry_online := online info;
         entry_lastSeen := lastSeen info; entry_avatar := avatar info;
         entry_status := or_default (Some new_status) "available" |} ∈ l.
Proof.
  intros Ht Hg Hin Hne. unfold update_status, OMap.has. rewrite Ht, Hg.
  cbn [andb snd].
  exact (refreshed_list_shows st (currentUser sk) _ viewer vinfo Hin Hne).
Qed.

(** X8. [set_username] replaces the whole record of the name: whatever
    status and avatar the name had, every other user is sent a list that
    shows the name online with status ["available"] and with the avatar
    given now, or none. *)
Theorem set_username_resets_record c username av sk st viewer vinfo :
  (viewer, vinfo) ∈ users st →
  viewer ≠ Some username →
  ∃ l,
    Emit (socketId vinfo) (user_list l) ∈ (set_username c username av sk st).2
    ∧ {| entry_username := Some username; entry_online := true;
         entry_lastSeen := isoString c; entry_avatar := or_null av;
         entry_status := "available" |} ∈ l.
Proof.
  intros Hin Hne. cbn [set_username snd].
  destruct (refreshed_list_shows st (Some username)
              {| socketId := sid sk; online := true; avatar := or_null av;
                 lastSeen := isoString c; status := None |}
              viewer vinfo Hin Hne) as (l & Hl & He).
  exists l. split; [now right | exact He].
Qed.

(** X9. A connection that registers a second name leaves the first name
    as it was: the first name's record is untouched by the second
    registration and by the later disconnect of the connection, which marks
    only the second name offline. A first name that was online stays
    online although its only connection is gone. *)
Theorem renamed_connection_leaves_ghost c c' first_ second_ av sk st info :
  currentUser sk = Some first_ →
  first_ ≠ second_ →
  second_ ≠ "" →
  OMap.get (Some first_) (users st) = Some info →
  let '(sk', st', _) := set_username c second_ av sk st in
  let st'' := (disconnect c' sk' st').1.2 in
  OMap.get (Some first_) (users st'') = Some info
  ∧ online <$> OMap.get (Some second_) (users st'') = Some false.
Proof.
  intros Hc Hne Hnon Hg. cbn [set_username].
  unfold disconnect, OMap.has. cbn [currentUser users with_users truthy].
  rewrite bool_decide_eq_false_2 by assumption.
  rewrite omap_get_set_eq. cbn [negb andb fst snd users with_users].
  split.
  - rewrite !omap_get_set_ne by congruence. exact Hg.
  - now rewrite omap_get_set_eq.
Qed.

(** X10. After a registered user disconnects, every other user in [users]
    is sent a list that shows the user offline, last seen at the time of
    the disconnect; and a list is still addressed to the socket id stored
    for the user who left. *)
Theorem disconnect_shown_to_everyone c sk st info :
  truthy (currentUser sk) = true →
  OMap.get (currentUser sk) (users st) = Some info →
  let outs := (disconnect c sk st).2 in
  (∀ viewer vinfo,
      (viewer, vinfo) ∈ users st → viewer ≠ currentUser sk →
      ∃ l, Emit (socketId vinfo) (user_list l) ∈ outs
           ∧ {| entry_username := currentUser sk; entry_online := false;
                entry_lastSeen := isoString c; entry_avatar := avatar info;
                entry_status := or_default (status info) "available" |} ∈ l)
  ∧ ∃ l, Emit (socketId info) (user_list l) ∈ outs.
Proof.
  intros Ht Hg. unfold disconnect, OMap.has. rewrite Ht, Hg.
  cbn [andb snd]. split.
  - intros viewer vinfo Hin Hne.
    exact (refreshed_list_shows st (currentUser sk) _ viewer vinfo Hin Hne).
  - eexists. unfold sendUserLists, OMap.entries. apply list_elem_of_fmap.
    exists (currentUser sk,
            {| socketId := socketId info; online := false;
               avatar := avatar info; lastSeen := isoString c;
               status := status info |}).
    split; [reflexivity|]. cbn [users with_users]. apply omap_set_elem.
Qed.


End presence_over_time.

(** ** Private messages over time *)

Section messages_over_time.
Import InMemory.



(** X13. A private message reaches nobody else: every event that
    [send_private] emits is addressed either to the sending connection or
    to the socket id stored for the target name, and the latter only when
    the target is marked online. *)
Theorem private_message_stays_private c to_ msg sk st target ev :
  Emit target ev ∈ (send_private c to_ msg sk st).2 →
  target = sid sk
  ∨ ∃ info, OMap.get (Some to_) (users st) = Some info
            ∧ online info = true ∧ target = socketId info.
Proof.
  unfold send_private. cbv zeta. cbn [snd users with_history].
  unfold emit_if_online. intros Hin.
  apply elem_of_app in Hin as [Hin|Hin].
  - right. destruct (OMap.get (Some to_) (users st)) as [info|];
      [|now apply elem_of_nil in Hin].
    destruct (online info) eqn:Hon; [|now apply elem_of_nil in Hin].
    apply list_elem_of_singleton in Hin. injection Hin as -> _. eauto.
  - left. apply list_elem_of_singleton in Hin. now injection Hin as -> _.
Qed.

Lemma includes_empty (s : string) : includes s "" = true.
Proof. destruct s; reflexivity. Qed.

Lemma filter_includes_empty (l : list Payload) :
  filter (fun msg => Is_true (includes (toLowerCase (message msg)) "")) l = l.
Proof.
  induction l as [|p l IH]; [reflexivity|].
  rewrite filter_cons_True by (now rewrite includes_empty).
  now rewrite IH.
Qed.

(** X14. The case of the letters of a query does not count, and the
    empty query finds everything: two queries of ASCII characters that
    are equal up to case get the same answer, whatever the inbox holds,
    and the empty query is answered with the whole inbox of the
    connection's user. *)
Theorem search_query_up_to_case query query' sk st :
  (ascii_text query = true → equal_ignoring_case query query' →
   search_messages query sk st = search_messages query' sk st)
  ∧ search_messages "" sk st
    = (sk, st, [Emit (sid sk) (search_results (inbox st (currentUser sk)))]).
Proof.
  split.
  - intros Hq Heq. unfold search_messages.
    pose proof (equal_ignoring_case_ascii _ _ Heq Hq) as Hq'.
    apply toLowerCase_equal_ignoring_case in Heq; [|assumption..].
    now rewrite Heq.
  - unfold search_messages, inbox.
    change (toLowerCase "") with "".
    now rewrite filter_includes_empty.
Qed.

(** X15. An inbox keeps the order of its messages: after any number of
    saves into a new inbox, the stored history is the last 1000 of the
    saved messages, oldest first, and all of them when there are at most
    1000. *)
Theorem inbox_keeps_newest_in_order (k : Name) (msgs : list Payload) :
  msgs ≠ [] →
  save_all k msgs ∅ !! k = Some (drop (length msgs - 1000) msgs)
  ∧ ((length msgs ≤ 1000)%nat → save_all k msgs ∅ !! k = Some msgs).
Proof.
  intros Hne.
  assert (Hs : save_all k msgs ∅ !! k = Some (drop (length msgs - 1000) msgs)).
  { pose proof (save_all_lookup k msgs [] ∅) as Hd.
    rewrite lookup_empty in Hd. specialize (Hd eq_refl).
    destruct msgs as [|m msgs]; [congruence|].
    destruct (save_all_is_Some k m msgs ∅) as [stored Hst].
    rewrite Hst in *. cbn [default from_option Datatypes.id] in Hd.
    subst stored. reflexivity. }
  split; [exact Hs|].
  intros Hle. rewrite Hs.
  now replace (length msgs - 1000)%nat with 0%nat by lia.
Qed.


End messages_over_time.

(** ** The request limiter *)

Section limiter.
Import RateLimit.
Local Open Scope Z_scope.

Implicit Types (requests : gmap string (list Z)) (ip : string).

Lemma sweep_lookup windowStart requests ip :
  default [] (sweep windowStart requests !! ip)
  = valid windowStart (default [] (requests !! ip)).
Proof.
  unfold sweep. rewrite lookup_omap.
  destruct (requests !! ip) as [ts|]; cbn; [|reflexivity].
  destruct (decide (length (valid windowStart ts) = 0%nat)) as [Hz|Hnz];
    [|reflexivity].
  cbn. symmetry. now apply length_zero_iff_nil.
Qed.

Lemma sweep_lookup_Some windowStart requests ip ts :
  sweep windowStart requests !! ip = Some ts →
  ts ≠ [] ∧ ∃ ts0, requests !! ip = Some ts0 ∧ ts = valid windowStart ts0.
Proof.
  unfold sweep. rewrite lookup_omap.
  destruct (requests !! ip) as [ts0|]; cbn; [|discriminate].
  destruct (decide (length (valid windowStart ts0) = 0%nat)) as [Hz|Hnz];
    [discriminate|].
  intros [= <-]. split; [|eauto]. intros Hnil. now rewrite Hnil in Hnz.
Qed.

Lemma valid_valid ws ws' (ts : list Z) :
  ws' ≤ ws → valid ws (valid ws' ts) = valid ws ts.
Proof. intros Hle. unfold valid. apply list_filter_filter_l. lia. Qed.

Lemma valid_one ws (t : Z) : ws < t → valid ws [t] = [t].
Proof.
  intros Hlt. unfold valid. rewrite filter_cons_True; [reflexivity | exact Hlt].
Qed.

Lemma valid_app ws (a b : list Z) : valid ws (a ++ b) = valid ws a ++ valid ws b.
Proof. apply filter_app. Qed.

(** The answer depends on the caller's own record only. *)
Lemma rateLimiter_answer maxRequests windowMs ip now requests :
  (rateLimiter maxRequests windowMs ip now requests).1
  = if (maxRequests <=? length (valid (now - windowMs)
                                  (default [] (requests !! ip))))%nat
    then too_many (retry_after windowMs) else next.
Proof.
  unfold rateLimiter. cbv zeta.
  rewrite sweep_lookup, valid_valid by lia.
  now destruct (_ <=? _)%nat.
Qed.

(** The record of every client after one call. *)
Lemma rateLimiter_record maxRequests windowMs ip now requests ip' :
  default [] ((rateLimiter maxRequests windowMs ip now requests).2 !! ip')
  = valid (now - windowMs) (default [] (requests !! ip'))
    ++ match (rateLimiter maxRequests windowMs ip now requests).1 with
       | next => if decide (ip = ip') then [now] else []
       | too_many _ => []
       end.
Proof.
  rewrite rateLimiter_answer. unfold rateLimiter. cbv zeta.
  rewrite sweep_lookup, valid_valid by lia.
  destruct (_ <=? _)%nat; cbn [snd].
  - now rewrite sweep_lookup, app_nil_r.
  - destruct (decide (ip = ip')) as [<-|Hne].
    + now rewrite lookup_insert_eq.
    + now rewrite lookup_insert_ne, sweep_lookup, app_nil_r by done.
Qed.

Lemma admitted_snoc ip log now ip' r :
  admitted ip (log ++ [(now, ip', r)])
  = admitted ip log
    ++ match r with
       | next => if decide (ip' = ip) then [now] else []
       | too_many _ => []
       end.
Proof.
  unfold admitted. rewrite omap_app. f_equal. cbn.
  destruct r; [|reflexivity]. now destruct (decide (ip' = ip)).
Qed.

Lemma rateLimiter_records maxRequests windowMs ip now requests latest past :
  0 < windowMs → latest ≤ now →
  Served.records windowMs latest past requests →
  let r := (rateLimiter maxRequests windowMs ip now requests).1 in
  Served.records windowMs now (past ++ [(now, ip, r)])
          (rateLimiter maxRequests windowMs ip now requests).2
  ∧ (r = next ↔
     (length (valid (now - windowMs) (admitted ip past)) < maxRequests)%nat).
Proof.
  intros Hwin Hle Hrec. cbv zeta. split.
  - intros ip'. rewrite rateLimiter_record, admitted_snoc, valid_app.
    rewrite Hrec, valid_valid by lia. f_equal.
    destruct (rateLimiter _ _ _ _ _).1; [|reflexivity].
    destruct (decide (ip = ip')); [|reflexivity].
    symmetry. apply valid_one. lia.
  - rewrite rateLimiter_answer, Hrec, valid_valid by lia.
    destruct (Nat.leb_spec maxRequests
                (length (valid (now - windowMs) (admitted ip past))));
      split; intros; try lia; try discriminate; reflexivity.
Qed.

Lemma serve_window maxRequests windowMs reqs :
  0 < windowMs →
  ∀ requests latest past,
    Served.records windowMs latest past requests →
    Served.in_time_order latest reqs →
    ∀ before now ip r after_,
      (serve maxRequests windowMs reqs requests).1
      = before ++ (now, ip, r) :: after_ →
      (r = next ↔
       (length (valid (now - windowMs) (admitted ip (past ++ before)))
        < maxRequests)%nat).
Proof.
  intros Hwin. induction reqs as [|[now0 ip0] reqs IH];
    intros requests latest past Hrec Hord before now ip r after_ Hlog.
  - cbn in Hlog. now destruct before.
  - destruct Hord as [Hle Hord]. cbn [serve] in Hlog.
    destruct (rateLimiter_records maxRequests windowMs ip0 now0 requests
                latest past Hwin Hle Hrec) as [Hrec' Hiff].
    destruct (rateLimiter maxRequests windowMs ip0 now0 requests)
      as [r0 requests'] eqn:Hcall. cbn [fst snd] in Hrec', Hiff.
    destruct (serve maxRequests windowMs reqs requests') as [log final] eqn:Hs.
    cbn [fst] in Hlog. destruct before as [|e before].
    + cbn [app] in Hlog. injection Hlog as -> -> -> _.
      now rewrite app_nil_r.
    + cbn [app] in Hlog. injection Hlog as <- Hlog.
      replace (past ++ (now0, ip0, r0) :: before)
        with ((past ++ [(now0, ip0, r0)]) ++ before)
        by now rewrite <- app_assoc.
      eapply (IH requests' now0); eauto. rewrite Hs. exact Hlog.
Qed.

(** X17. For requests served in the order of their times, with a window
    of positive length, a request is let through exactly when fewer than
    [maxRequests] of the same client's earlier requests that were let
    through lie within [windowMs] before it. Requests that were refused do
    not count, and other clients do not count. *)
Theorem limiter_admits_iff_window_has_room
    maxRequests windowMs since reqs before now ip r after_ :
  0 < windowMs →
  Served.in_time_order since reqs →
  (serve maxRequests windowMs reqs ∅).1 = before ++ (now, ip, r) :: after_ →
  (r = next ↔
   (length (valid (now - windowMs) (admitted ip before)) < maxRequests)%nat).
Proof.
  intros Hwin Hord Hlog.
  assert (Hrec : Served.records windowMs since [] ∅)
    by (intros ip'; now rewrite lookup_empty).
  exact (serve_window maxRequests windowMs reqs Hwin ∅ since [] Hrec Hord
           before now ip r after_ Hlog).
Qed.

(** X18. The map holds no stale and no empty record: after a call at time
    [now], with a window of positive length, every record is non-empty and
    holds only times within [windowMs] before [now]; and if no record was
    longer than [maxRequests] before the call, none is after it. *)
Theorem limiter_keeps_only_recent maxRequests windowMs ip now requests :
  0 < windowMs →
  let requests' := (rateLimiter maxRequests windowMs ip now requests).2 in
  (∀ ip' ts, requests' !! ip' = Some ts →
             ts ≠ [] ∧ Forall (fun time => now - windowMs < time) ts)
  ∧ ((∀ ip' ts, requests !! ip' = Some ts → (length ts ≤ maxRequests)%nat) →
     ∀ ip' ts, requests' !! ip' = Some ts → (length ts ≤ maxRequests)%nat).
Proof.
  intros Hwin. unfold rateLimiter. cbv zeta.
  set (ws := now - windowMs).
  assert (Hsweep : ∀ ip' ts, sweep ws requests !! ip' = Some ts →
            ts ≠ [] ∧ Forall (fun time => ws < time) ts
            ∧ ∃ ts0, requests !! ip' = Some ts0 ∧ (length ts ≤ length ts0)%nat).
  { intros ip' ts Hs. apply sweep_lookup_Some in Hs as (Hne & ts0 & H0 & ->).
    split; [assumption|]. split.
    - apply Forall_forall. intros t Ht. now apply list_elem_of_filter in Ht as [? _].
    - exists ts0. split; [assumption|]. apply length_filter. }
  destruct (Nat.leb_spec maxRequests
              (length (valid ws (default [] (sweep ws requests !! ip)))))
    as [Hfull|Hroom]; cbn [snd]; split.
  - intros ip' ts Hs. destruct (Hsweep ip' ts Hs) as (? & ? & _). auto.
  - intros Hlen ip' ts Hs. destruct (Hsweep ip' ts Hs) as (_ & _ & ts0 & H0 & Hle).
    specialize (Hlen ip' ts0 H0). lia.
  - intros ip' ts. destruct (decide (ip = ip')) as [<-|Hne].
    + rewrite lookup_insert_eq. intros [= <-]. split; [now destruct (valid _ _)|].
      apply Forall_app. split.
      * apply Forall_forall. intros t Ht.
        now apply list_elem_of_filter in Ht as [? _].
      * apply Forall_singleton. lia.
    + rewrite lookup_insert_ne by done. intros Hs.
      destruct (Hsweep ip' ts Hs) as (? & ? & _). auto.
  - intros Hlen ip' ts. destruct (decide (ip = ip')) as [<-|Hne].
    + rewrite lookup_insert_eq. intros [= <-]. rewrite length_app. cbn [length]. lia.
    + rewrite lookup_insert_ne by done. intros Hs.
      destruct (Hsweep ip' ts Hs) as (_ & _ & ts0 & H0 & Hle).
      specialize (Hlen ip' ts0 H0). lia.
Qed.

Lemma serve_other_clients maxRequests windowMs ip others :
  Forall (fun o => o.2 ≠ ip) others →
  ∀ requests time,
    time ∈ default [] ((serve maxRequests windowMs others requests).2 !! ip) →
    time ∈ default [] (requests !! ip).
Proof.
  induction 1 as [|[now0 ip0] others Hne _ IH]; intros requests time;
    [auto|].
  cbn [serve].
  pose proof (rateLimiter_record maxRequests windowMs ip0 now0 requests ip) as Hr.
  destruct (rateLimiter maxRequests windowMs ip0 now0 requests)
    as [r0 requests'] eqn:Hcall.
  specialize (IH requests' time).
  destruct (serve maxRequests windowMs others requests') as [log final].
  cbn [fst snd] in *. intros Hin. apply IH in Hin. rewrite Hr in Hin.
  apply elem_of_app in Hin as [Hin|Hin].
  - now apply list_elem_of_filter in Hin as [_ ?].
  - destruct r0; [|now apply elem_of_nil in Hin].
    rewrite decide_False in Hin by exact Hne. now apply elem_of_nil in Hin.
Qed.

Lemma retry_after_covers windowMs :
  windowMs ≤ 1000 * retry_after windowMs < windowMs + 1000.
Proof.
  unfold retry_after.
  pose proof (Z.div_mod (- windowMs) 1000 ltac:(lia)) as Hdm.
  pose proof (Z.mod_pos_bound (- windowMs) 1000 ltac:(lia)) as Hb. lia.
Qed.

(** X19. [retryAfter] is honest: a client that is refused at a time when
    all its recorded requests are past, and then sends nothing for the
    [retryAfter] seconds of the answer, is let through by its next request,
    whatever the other clients send in between, provided [maxRequests] is
    at least one. The [retryAfter] of the answer is the window rounded up
    to whole seconds. *)
Theorem limiter_admits_after_retry
    maxRequests windowMs ip now requests retryAfter others later :
  (0 < maxRequests)%nat →
  (rateLimiter maxRequests windowMs ip now requests).1 = too_many retryAfter →
  (∀ time, time ∈ default [] (requests !! ip) → time ≤ now) →
  Forall (fun o => o.2 ≠ ip) others →
  now + 1000 * retryAfter ≤ later →
  windowMs ≤ 1000 * retryAfter < windowMs + 1000
  ∧ (rateLimiter maxRequests windowMs ip later
       (serve maxRequests windowMs others
          (rateLimiter maxRequests windowMs ip now requests).2).2).1
    = next.
Proof.
  intros Hmax Hrefused Hpast Hothers Hlater.
  assert (Hra : retryAfter = retry_after windowMs).
  { rewrite rateLimiter_answer in Hrefused.
    destruct (_ <=? _)%nat; [now injection Hrefused|discriminate]. }
  subst retryAfter. split; [apply retry_after_covers|].
  pose proof (retry_after_covers windowMs) as Hcov.
  rewrite rateLimiter_answer.
  match goal with |- context [valid ?ws ?l] => assert (Hnil : valid ws l = []) end.
  { apply elem_of_nil_inv. intros time Hin.
    apply list_elem_of_filter in Hin as [Hlt Hin].
    apply (serve_other_clients _ _ _ _ Hothers) in Hin.
    rewrite rateLimiter_record, Hrefused, app_nil_r in Hin.
    apply list_elem_of_filter in Hin as [_ Hin]. apply Hpast in Hin. lia. }
  rewrite Hnil. cbn [length].
  destruct (Nat.leb_spec maxRequests 0); [lia|reflexivity].
Qed.

End limiter.

(** ** The token check *)

Section token_check.
Import Auth.

Lemma split_space_no_space (s : string) :
  has_space s = false → split_space s = [s].
Proof.
  induction s as [|c s IH]; [reflexivity|]. cbn [has_space split_space].
  intros Hs. apply orb_false_iff in Hs as [Hc Hs].
  apply bool_decide_eq_false in Hc. rewrite decide_False by assumption.
  now rewrite IH.
Qed.

Lemma append_empty_r (s : string) : s +:+ "" = s.
Proof.
  induction s as [|c s IH]; [reflexivity|].
  change (String c s +:+ "") with (String c (s +:+ "")). now rewrite IH.
Qed.

Lemma split_space_app (a b : string) :
  has_space a = false → split_space (a +:+ " " +:+ b) = a :: split_space b.
Proof.
  induction a as [|c a IH]; cbn [has_space]; intros Hs.
  - cbn. reflexivity.
  - apply orb_false_iff in Hs as [Hc Hs]. apply bool_decide_eq_false in Hc.
    change (String c a +:+ " " +:+ b) with (String c (a +:+ " " +:+ b)).
    cbn [split_space]. rewrite decide_False by assumption. now rewrite IH.
Qed.

(** X20. The token is the second word of the header, and the first word
    is not looked at: for a header made of a first word, one space, a
    second word and then nothing or a space and more, the request is
    answered 401 [NO_TOKEN] when the second word is empty (two spaces in a
    row), and otherwise decided by [validateToken] on the second word:
    passed on with the user, or answered 403 [INVALID_TOKEN]. A missing
    header and a header without a space are answered 401 [NO_TOKEN]. *)
Theorem token_is_second_word {U} (validateToken : string → option U)
    (scheme token rest : string) (authHeader : option string) :
  (has_space scheme = false → has_space token = false →
   rest = "" ∨ (∃ more, rest = " " +:+ more) →
   authenticateToken validateToken (Some (scheme +:+ " " +:+ token +:+ rest))
   = if bool_decide (token = "") then answer 401 "NO_TOKEN"
     else match validateToken token with
          | Some user => next user
          | None => answer 403 "INVALID_TOKEN"
          end)
  ∧ (authHeader = None ∨ (∃ h, authHeader = Some h ∧ has_space h = false) →
     authenticateToken validateToken authHeader = answer 401 "NO_TOKEN").
Proof.
  split.
  - intros Hs Ht Hrest. unfold authenticateToken, bearer.
    rewrite bool_decide_eq_false_2 by (now destruct scheme).
    rewrite split_space_app by assumption.
    assert (Hsnd : split_space (token +:+ rest) !! 0%nat = Some token).
    { destruct Hrest as [->|[more ->]].
      - rewrite append_empty_r. now rewrite split_space_no_space.
      - now rewrite split_space_app. }
    change ((scheme :: split_space (token +:+ rest)) !! 1%nat)
      with (split_space (token +:+ rest) !! 0%nat).
    rewrite Hsnd. cbn [Js.truthy mbind option_bind].
    now destruct (bool_decide (token = "")).
  - intros [->|(h & -> & Hh)]; [reflexivity|].
    unfold authenticateToken, bearer.
    destruct (bool_decide (h = "")) eqn:He.
    + apply bool_decide_eq_true in He as ->. reflexivity.
    + now rewrite split_space_no_space.
Qed.

End token_check.

(** ** Sends on the database-backed server *)

Section persistent_sends.
Import Persistent.
Context {DB : Type} `{Repositories DB}.

(** The events of a fan-out: one per member whose user is connected. *)
Lemma for_each_emit_if_connected (mems : list User) ev (d : DB) cu em :
  for_each mems (fun member => emit_if_connected (id member) ev)
    {| db := d; connectedUsers := cu; emitted := em |}
  = (Some tt,
     {| db := d; connectedUsers := cu;
        emitted := em ++ flat_map (fun member =>
                                     match cu !! id member with
                                     | Some target => [Emit target ev]
                                     | None => []
                                     end) mems |}).
Proof.
  revert em. induction mems as [|m mems IH]; intros em.
  - cbn. now rewrite app_nil_r.
  - cbn [for_each flat_map]. unfold bind at 1.
    unfold emit_if_connected at 1, bind, connected. cbn [connectedUsers].
    destruct (cu !! id m) as [target|].
    + unfold emit at 1. cbn [db connectedUsers emitted].
      now rewrite IH, <- app_assoc.
    + unfold ret at 1. now rewrite IH.
Qed.

(** X21. A group message of a member is stored once, as a file message
    when its [fileData] is truthy and as a text message without file data
    otherwise, and then sent to every member row whose user is connected,
    one [receive_group] per row in the order of the rows, carrying the id
    given by the database and the [fileData] as it came; users who are not
    connected get nothing, and the sender gets no acknowledgement apart
    from this. *)
Theorem send_group_stores_then_fans_out time room msg fd sk (s : State DB)
    saved d mems :
  isMember room (id (user sk)) (db s) = inr true →
  createMessage (messageData room (id (user sk)) msg fd) (db s)
  = inr (saved, d) →
  getRoomMembers room d = inr mems →
  let payload :=
    {| p_id := saved; from := username (user sk); to := None;
       roomId := Some room; message := msg; fileData := fd;
       timestamp := time; type := group |} in
  send_group time room msg fd sk s
  = (Some tt,
     {| db := d; connectedUsers := connectedUsers s;
        emitted := emitted s
          ++ flat_map (fun member =>
                         match connectedUsers s !! id member with
                         | Some target => [Emit target (receive_group payload)]
                         | None => []
                         end) mems |}).
Proof.
  intros Hm Hc Hg payload.
  unfold send_group, try_catch. unfold bind at 1, query at 1. rewrite Hm.
  cbn [negb]. unfold bind at 1, command at 1. rewrite Hc.
  unfold bind at 1, query at 1. cbn [db]. rewrite Hg.
  fold payload. now rewrite for_each_emit_if_connected.
Qed.

(** X22. A write that fails stops the send: if the message cannot be
    stored, [send_group] and [send_private] deliver it to nobody and send
    nothing but one [error] event to the sender. For [send_private] the
    private room found or created just before stays in the database. *)
Theorem failed_store_delivers_nothing time room to_ msg fd sk (s : State DB)
    targetUser proom d e e' :
  let data r := messageData r (id (user sk)) msg fd in
  let failed d0 :=
    (Some tt,
     {| db := d0; connectedUsers := connectedUsers s;
        emitted := emitted s
          ++ [Emit (sid sk) (error "Erro ao enviar mensagem")] |}) in
  (isMember room (id (user sk)) (db s) = inr true →
   createMessage (data room) (db s) = inl e →
   send_group time room msg fd sk s = failed (db s))
  ∧ (findByUsername to_ (db s) = inr (Some targetUser) →
     createOrFindPrivateRoom (id (user sk)) (id targetUser) (db s)
     = inr (proom, d) →
     createMessage (data proom) d = inl e' →
     send_private time to_ msg fd sk s = failed d).
Proof.
  cbv zeta. split.
  - intros Hm Hc. cbv [send_group try_catch bind query command emit].
    rewrite Hm. cbn [negb]. now rewrite Hc.
  - intros Hu Hr Hc. cbv [send_private try_catch bind query command emit].
    rewrite Hu, Hr. cbn [db]. now rewrite Hc.
Qed.

(** X23. If the member list cannot be read after the message was stored,
    the group message stays stored, nobody receives it, and the sender is
    told that sending failed. *)
Theorem stored_but_not_delivered time room msg fd sk (s : State DB) saved d e :
  isMember room (id (user sk)) (db s) = inr true →
  createMessage (messageData room (id (user sk)) msg fd) (db s)
  = inr (saved, d) →
  getRoomMembers room d = inl e →
  send_group time room msg fd sk s
  = (Some tt,
     {| db := d; connectedUsers := connectedUsers s;
        emitted := emitted s
          ++ [Emit (sid sk) (error "Erro ao enviar mensagem")] |}).
Proof.
  intros Hm Hc Hg. cbv [send_group try_catch bind query command emit].
  rewrite Hm. cbn [negb]. rewrite Hc. cbn [db]. now rewrite Hg.
Qed.

(** X24. A private message to a known user is stored once in the private
    room of the two users, as a file message when its [fileData] is truthy
    and as a text message without file data otherwise, delivered to the
    recipient's connection if the recipient is connected, and acknowledged
    to the sender in every case, with the id given by the database and the
    [fileData] as it came. *)
Theorem send_private_stores_then_delivers time to_ msg fd sk (s : State DB)
    targetUser proom d saved d' :
  findByUsername to_ (db s) = inr (Some targetUser) →
  createOrFindPrivateRoom (id (user sk)) (id targetUser) (db s) = inr (proom, d) →
  createMessage (messageData proom (id (user sk)) msg fd) d
  = inr (saved, d') →
  let payload :=
    {| p_id := saved; from := username (user sk); to := Some to_;
       roomId := None; message := msg; fileData := fd;
       timestamp := time; type := private |} in
  send_private time to_ msg fd sk s
  = (Some tt,
     {| db := d'; connectedUsers := connectedUsers s;
        emitted := (emitted s
                    ++ match connectedUsers s !! id targetUser with
                       | Some target => [Emit target (receive_private payload)]
                       | None => []
                       end)
                   ++ [Emit (sid sk) (message_sent payload)] |}).
Proof.
  intros Hu Hr Hc payload.
  cbv [send_private try_catch bind query command emit emit_if_connected
       connected ret].
  rewrite Hu, Hr. cbn [db]. rewrite Hc. cbn [db connectedUsers emitted].
  destruct (connectedUsers s !! id targetUser); cbn [db connectedUsers emitted];
    [reflexivity|]. now rewrite app_nil_r.
Qed.

(** Names that match no user are passed over by the loop of
    [create_group]. *)
Lemma for_each_unknown_names room notice (mems : list string) (s : State DB) :
  Forall (fun nm => findByUsername nm (db s) = inr None) mems →
  for_each mems (fun memberUsername =>
    bind (query (findByUsername memberUsername)) (fun member =>
      match member with
      | Some member =>
          bind (command (addMember room (id member)))
               (fun _ => emit_if_connected (id member) notice)
      | None => ret tt
      end)) s
  = (Some tt, s).
Proof.
  induction 1 as [|nm mems Hnm _ IH]; [reflexivity|].
  cbn [for_each]. unfold bind at 1. unfold bind at 1, query at 1.
  rewrite Hnm. unfold ret at 1. exact IH.
Qed.

(** X25. [create_group] adds only the names it can resolve but announces
    all of them: when none of the requested names matches a user, the room
    is created with its creator as the only member, no error is raised, and
    the creator is sent a [group_created] whose member list holds the
    creator and every requested name. *)
Theorem create_group_announces_unknown_names groupName mems sk (s : State DB)
    room d1 d2 :
  createRoom groupName (id (user sk)) (db s) = inr (room, d1) →
  addMember room (id (user sk)) d1 = inr (tt, d2) →
  Forall (fun nm => findByUsername nm d2 = inr None) mems →
  create_group groupName mems sk s
  = (Some tt,
     {| db := d2; connectedUsers := connectedUsers s;
        emitted := emitted s
          ++ [Emit (sid sk)
                (group_created room groupName (username (user sk) :: mems)
                   (username (user sk)))] |}).
Proof.
  intros Hc Ha Hn. unfold create_group, try_catch.
  unfold bind at 1, command at 1. rewrite Hc.
  unfold bind at 1, command at 1. cbn [db]. rewrite Ha.
  unfold bind at 1. cbn [db connectedUsers emitted].
  rewrite for_each_unknown_names by exact Hn.
  reflexivity.
Qed.

End persistent_sends.

(** ** Instances of the further properties *)

(** X2, witness: Alice, her group and Bob's inbox are still there after
    Bob disconnects. *)
Lemma nothing_forgotten_witness :
  let w' := (InMemory.run (after Trials.busy)
               [(Examples.clock1, "s2", InMemory.Disconnect)]).1 in
  Some "alice" ∈ OMap.keys (InMemory.users (InMemory.server w'))
  ∧ is_Some (InMemory.rooms (InMemory.server w')
               !! InMemory.group_id Examples.clock0)
  ∧ is_Some (InMemory.messageHistory (InMemory.server w') !! Some "bob").
Proof.
  pose proof (nothing_forgotten (after Trials.busy)
                [(Examples.clock1, "s2", InMemory.Disconnect)]) as Hkept.
  cbv zeta in *. destruct Hkept as (Hu & Hr & Hm).
  split; [|split].
  - apply Hu. vm_compute. left.
  - apply Hr. vm_compute. eexists. reflexivity.
  - apply Hm. vm_compute. eexists. reflexivity.
Defined.

(** X3, witness: Bob's inbox after Alice's "hello", and Bob's search for
    "HEL". *)
Lemma search_finds_only_own_private_witness :
  (Reach.involves (Some "bob") Trials.hello ∧ Reach.is_private Trials.hello)
  ∧ (Reach.involves (Some "bob") Trials.hello ∧ Reach.is_private Trials.hello).
Proof.
  destruct (search_finds_only_own_private Trials.private_talk "HEL"
              Trials.bob_socket) as [Hinbox Hsearch].
  split.
  - apply (Hinbox (Some "bob") [Trials.hello]); [vm_compute; reflexivity | left].
  - apply (Hsearch [Trials.hello]); [vm_compute; reflexivity | left].
Defined.

(** X4, witness: Alice's "hi" in the group she created with Bob. *)
Lemma room_messages_from_members_witness :
  Reach.is_group_message (InMemory.group_id Examples.clock0) Trials.hi
  ∧ InMemory.from Trials.hi ∈ InMemory.members Trials.devs_with_hi.
Proof.
  apply (room_messages_from_members Trials.group_talk
           (InMemory.group_id Examples.clock0) Trials.devs_with_hi Trials.hi);
    [vm_compute; reflexivity | left].
Defined.

(** X5, witness: a second group created in the same millisecond replaces
    the first; a group created a minute later leaves it. *)
Lemma create_group_same_millisecond_witness :
  InMemory.rooms
    (InMemory.create_group Examples.clock1 "ops" [] Trials.bob_socket
       (InMemory.server (after Trials.group_talk))).1.2
    !! InMemory.group_id Examples.clock0
  = InMemory.rooms (InMemory.server (after Trials.group_talk))
      !! InMemory.group_id Examples.clock0
  ∧ InMemory.messages
      <$> InMemory.rooms
            (InMemory.create_group Examples.clock0 "ops" [] Trials.bob_socket
               (InMemory.server (after Trials.group_talk))).1.2
            !! InMemory.group_id Examples.clock0
    = Some [].
Proof.
  split.
  - apply (create_group_same_millisecond Examples.clock0 Examples.clock1).
    discriminate.
  - pose proof (create_group_same_millisecond Examples.clock0 Examples.clock0
                  "ops" [] Trials.bob_socket
                  (InMemory.server (after Trials.group_talk))) as Hsame.
    cbv zeta in Hsame. destruct Hsame as [_ Hsame].
    now rewrite Hsame.
Defined.

(** X6, witness: a connection that never registered joins Alice's group
    and is sent her message. *)
Lemma join_room_replays_history_witness :
  ∃ payload,
    InMemory.message payload = "hi"
    ∧ (Relay.join_room (InMemory.group_id Examples.clock0)
         (InMemory.new_socket "s9")
         (InMemory.send_group Examples.clock1 (InMemory.group_id Examples.clock0)
            "hi" Examples.alice_socket
            (InMemory.server (after Examples.alice_group))).1.2).2
      = [Relay.Join "s9" (InMemory.group_id Examples.clock0);
         Relay.Emit "s9" (Relay.room_history [payload])].
Proof.
  destruct (join_room_replays_history Examples.clock1
              (InMemory.group_id Examples.clock0) "hi" Examples.alice_socket
              (InMemory.server (after Examples.alice_group)) Trials.devs
              (InMemory.new_socket "s9"))
    as (payload & Hm & _ & Hj); [vm_compute; reflexivity | right; left |].
  exists payload. split; [exact Hm | exact Hj].
Defined.

(** X7, witness: Alice sets the status "busy"; Bob is sent a list that
    shows it. *)
Lemma status_reaches_everyone_witness :
  ∃ l,
    InMemory.Emit "s2" (InMemory.user_list l)
    ∈ (InMemory.update_status "busy" Examples.alice_socket Examples.two_online).2
    ∧ {| InMemory.entry_username := Some "alice"; InMemory.entry_online := true;
         InMemory.entry_lastSeen := "2024-01-01T10:00:00.000Z";
         InMemory.entry_avatar := None; InMemory.entry_status := "busy" |} ∈ l.
Proof.
  apply (status_reaches_everyone "busy" Examples.alice_socket Examples.two_online
           Trials.alice_info (Some "bob") Trials.bob_info).
  - reflexivity.
  - vm_compute. reflexivity.
  - vm_compute. right. left.
  - discriminate.
Defined.

(** X8, witness: Alice registers again, now with an avatar; Bob is sent a
    list that shows her with it and with status "available". *)
Lemma set_username_resets_record_witness :
  ∃ l,
    InMemory.Emit "s2" (InMemory.user_list l)
    ∈ (InMemory.set_username Examples.clock1 "alice" (Some "a.png")
         (InMemory.new_socket "s3")
         (InMemory.update_status "busy" Examples.alice_socket
            Examples.two_online).1.2).2
    ∧ {| InMemory.entry_username := Some "alice"; InMemory.entry_online := true;
         InMemory.entry_lastSeen := "2024-01-01T10:01:00.000Z";
         InMemory.entry_avatar := Some "a.png";
         InMemory.entry_status := "available" |} ∈ l.
Proof.
  apply (set_username_resets_record Examples.clock1 "alice" (Some "a.png")
           (InMemory.new_socket "s3") _ (Some "bob") Trials.bob_info).
  - vm_compute. right. left.
  - discriminate.
Defined.

(** X9, witness: Alice's connection registers the name "ally" and then
    disconnects; "alice" is still online, "ally" is offline. *)
Lemma renamed_connection_leaves_ghost_witness :
  let '(sk', st', _) :=
    InMemory.set_username Examples.clock1 "ally" None Examples.alice_socket
      Examples.two_online in
  let st'' := (InMemory.disconnect Examples.clock1 sk' st').1.2 in
  OMap.get (Some "alice") (InMemory.users st'') = Some Trials.alice_info
  ∧ InMemory.online <$> OMap.get (Some "ally") (InMemory.users st'') = Some false.
Proof.
  apply (renamed_connection_leaves_ghost Examples.clock1 Examples.clock1
           "alice" "ally" None Examples.alice_socket Examples.two_online
           Trials.alice_info).
  - reflexivity.
  - discriminate.
  - discriminate.
  - vm_compute. reflexivity.
Defined.

(** X10, witness: Alice disconnects; Bob is sent a list that shows her
    offline, and a list still goes to her socket id. *)
Lemma disconnect_shown_to_everyone_witness :
  (∃ l,
      InMemory.Emit "s2" (InMemory.user_list l)
      ∈ (InMemory.disconnect Examples.clock1 Examples.alice_socket
           Examples.two_online).2
      ∧ {| InMemory.entry_username := Some "alice";
           InMemory.entry_online := false;
           InMemory.entry_lastSeen := "2024-01-01T10:01:00.000Z";
           InMemory.entry_avatar := None;
           InMemory.entry_status := "available" |} ∈ l)
  ∧ ∃ l,
      InMemory.Emit "s1" (InMemory.user_list l)
      ∈ (InMemory.disconnect Examples.clock1 Examples.alice_socket
           Examples.two_online).2.
Proof.
  assert (Hg : OMap.get (Some "alice") (InMemory.users Examples.two_online)
               = Some Trials.alice_info) by (vm_compute; reflexivity).
  pose proof (disconnect_shown_to_everyone Examples.clock1 Examples.alice_socket
                Examples.two_online Trials.alice_info eq_refl Hg) as Hshown.
  cbv zeta in Hshown. destruct Hshown as [Hothers Hself].
  split; [|exact Hself].
  apply (Hothers (Some "bob") Trials.bob_info);
    [vm_compute; right; left | discriminate].
Defined.

(** X13, witness: the acknowledgement of Alice's message to Bob goes to
    Alice's own socket. *)
Lemma private_message_stays_private_witness :
  "s2" = "s1"
  ∨ ∃ info, OMap.get (Some "bob") (InMemory.users Examples.two_online) = Some info
            ∧ InMemory.online info = true
            ∧ "s2" = InMemory.socketId info.
Proof.
  apply (private_message_stays_private Examples.clock1 "bob" "hello"
           Examples.alice_socket Examples.two_online "s2"
           (InMemory.receive_private Trials.hello)).
  vm_compute. left.
Defined.

(** X14, witness: "HI" and "hi" are the same query. *)
Lemma search_query_up_to_case_witness :
  InMemory.search_messages "HeLLo" Trials.bob_socket
    (InMemory.server (after Trials.private_talk))
  = InMemory.search_messages "hEllO" Trials.bob_socket
      (InMemory.server (after Trials.private_talk)).
Proof.
  apply (proj1 (search_query_up_to_case "HeLLo" "hEllO" Trials.bob_socket
                  (InMemory.server (after Trials.private_talk))));
    [reflexivity|].
  apply (bool_decide_unpack _). vm_compute. exact I.
Defined.

(** X15, witness: two messages saved into a new inbox are both kept, in
    order. *)
Lemma inbox_keeps_newest_in_order_witness :
  save_all (Some "bob") [Examples.numbered 0; Examples.numbered 1] ∅ !! Some "bob"
  = Some [Examples.numbered 0; Examples.numbered 1].
Proof.
  apply (inbox_keeps_newest_in_order (Some "bob")
           [Examples.numbered 0; Examples.numbered 1]);
    [discriminate | cbn; lia].
Defined.


(** X17, witness: with two requests allowed per second, the third request
    of a burst is refused, and the request 1.5 seconds after the first is
    let through because nothing of the client is left in its window. *)
Lemma limiter_admits_iff_window_has_room_witness :
  (RateLimit.serve 2 1000 Trials.burst ∅).1
  = [(0%Z, "10.0.0.1", RateLimit.next); (10%Z, "10.0.0.1", RateLimit.next);
     (20%Z, "10.0.0.1", RateLimit.too_many 1);
     (1500%Z, "10.0.0.1", RateLimit.next)]
  ∧ (RateLimit.next = RateLimit.next ↔
     (length (RateLimit.valid (1500 - 1000)
                (RateLimit.admitted "10.0.0.1"
                   [(0%Z, "10.0.0.1", RateLimit.next);
                    (10%Z, "10.0.0.1", RateLimit.next);
                    (20%Z, "10.0.0.1", RateLimit.too_many 1)])) < 2)%nat).
Proof.
  split; [vm_compute; reflexivity|].
  apply (limiter_admits_iff_window_has_room 2 1000 0 Trials.burst _ 1500
           "10.0.0.1" RateLimit.next []).
  - lia.
  - cbn. lia.
  - vm_compute. reflexivity.
Defined.

(** X18, witness: after a second request at time 10, the client's record
    holds the two times, both within the last second. *)
Lemma limiter_keeps_only_recent_witness :
  [0%Z; 10%Z] ≠ []
  ∧ Forall (fun time => (10 - 1000 < time)%Z) [0%Z; 10%Z]
  ∧ (length [0%Z; 10%Z] ≤ 2)%nat.
Proof.
  pose proof (limiter_keeps_only_recent 2 1000 "10.0.0.1" 10
                {[ "10.0.0.1" := [0%Z] ]} ltac:(lia)) as Hkeep.
  cbv zeta in Hkeep. destruct Hkeep as [Hrecent Hlen].
  assert (Hrec : (RateLimit.rateLimiter 2 1000 "10.0.0.1" 10
                    {[ "10.0.0.1" := [0%Z] ]}).2 !! "10.0.0.1"
                 = Some [0%Z; 10%Z]) by (vm_compute; reflexivity).
  destruct (Hrecent _ _ Hrec) as [Hne Hall].
  split; [exact Hne|]. split; [exact Hall|].
  apply (fun Hpre => Hlen Hpre _ _ Hrec).
  intros ip' ts Hs.
  destruct (decide (ip' = "10.0.0.1")) as [->|Hne'].
  - rewrite lookup_singleton_eq in Hs. injection Hs as <-. cbn. lia.
  - rewrite lookup_singleton_ne in Hs by congruence. discriminate.
Defined.

(** X19, witness: with one request allowed per second, a client let
    through at time 0 and refused at time 10 is let through again at time
    1010, while another client sends a request in between. *)
Lemma limiter_admits_after_retry_witness :
  (1000 ≤ 1000 * 1 < 1000 + 1000)%Z
  ∧ (RateLimit.rateLimiter 1 1000 "10.0.0.1" 1010
       (RateLimit.serve 1 1000 [(20%Z, "10.0.0.2")]
          (RateLimit.rateLimiter 1 1000 "10.0.0.1" 10
             {[ "10.0.0.1" := [0%Z] ]}).2).2).1
    = RateLimit.next.
Proof.
  apply (limiter_admits_after_retry 1 1000 "10.0.0.1" 10
           {[ "10.0.0.1" := [0%Z] ]} 1 [(20%Z, "10.0.0.2")] 1010).
  - lia.
  - vm_compute. reflexivity.
  - intros time Hin. vm_compute in Hin.
    apply list_elem_of_singleton in Hin as ->. lia.
  - apply Forall_singleton. discriminate.
  - lia.
Defined.

(** X20, witness: "Bearer abc" and "Basic abc" are both passed on with the
    user of the token "abc"; "Bearer" alone is answered 401. *)
Lemma token_is_second_word_witness :
  Auth.authenticateToken Trials.validateToken (Some "Bearer abc") = Auth.next 7%nat
  ∧ Auth.authenticateToken Trials.validateToken (Some "Basic abc") = Auth.next 7%nat
  ∧ Auth.authenticateToken Trials.validateToken (Some "Bearer")
    = Auth.answer 401 "NO_TOKEN".
Proof.
  split; [|split].
  - apply (proj1 (token_is_second_word Trials.validateToken "Bearer" "abc" ""
                    None)); [reflexivity | reflexivity | now left].
  - apply (proj1 (token_is_second_word Trials.validateToken "Basic" "abc" ""
                    None)); [reflexivity | reflexivity | now left].
  - apply (proj2 (token_is_second_word Trials.validateToken "" "" ""
                    (Some "Bearer"))).
    right. exists "Bearer". split; reflexivity.
Defined.

(** X21, witness: Bob sends a file into the room he shares with Carol;
    the message is stored as a file message, Bob is connected and
    receives it, Carol is not and receives nothing. *)
Lemma send_group_stores_then_fans_out_witness :
  ∃ payload,
    Persistent.message payload = "hi"
    ∧ Persistent.emitted
        (Persistent.send_group "10:00" 1%N "hi" (Some "photo.png")
           Trials.bob_db_socket Examples.connected_state).2
      = [Persistent.Emit "s2" (Persistent.receive_group payload)].
Proof.
  exists {| Persistent.p_id := 1%N; Persistent.from := "bob";
            Persistent.to := None; Persistent.roomId := Some 1%N;
            Persistent.message := "hi";
            Persistent.fileData := Some "photo.png";
            Persistent.timestamp := "10:00";
            Persistent.type := Persistent.group |}.
  split; [reflexivity|].
  rewrite (send_group_stores_then_fans_out "10:00" 1%N "hi" (Some "photo.png")
             Trials.bob_db_socket Examples.connected_state 1%N
             {| MemDb.accounts := MemDb.accounts Examples.database;
                MemDb.roomStore := MemDb.roomStore Examples.database;
                MemDb.messageLog :=
                  [(1%N, {| Persistent.room_id := 1%N;
                            Persistent.user_id := 2%N;
                            Persistent.content := "hi";
                            Persistent.message_type := Persistent.file;
                            Persistent.file_data := Some "photo.png" |})] |}
             [Examples.bob; Examples.carol]);
    vm_compute; reflexivity.
Defined.

(** X22, witness: on a database whose message write fails, Bob's group
    message and Alice's private message to Bob end in one error event to
    the sender. *)
Lemma failed_store_delivers_nothing_witness :
  Persistent.emitted
    (Persistent.send_group "10:00" 1%N "hi" None Trials.bob_db_socket
       Trials.write_fails).2
  = [Persistent.Emit "s2" (Persistent.error "Erro ao enviar mensagem")]
  ∧ Persistent.emitted
      (Persistent.send_private "10:00" "bob" "hi" None Examples.alice_db_socket
         Trials.write_fails).2
    = [Persistent.Emit "s1" (Persistent.error "Erro ao enviar mensagem")].
Proof.
  pose proof (failed_store_delivers_nothing "10:00" 1%N "bob" "hi" None
                Trials.bob_db_socket Trials.write_fails Examples.bob 1%N
                (Persistent.db Trials.write_fails)
                RoomManager.PersistenceError RoomManager.PersistenceError)
    as [Hgroup _].
  pose proof (failed_store_delivers_nothing "10:00" 1%N "bob" "hi" None
                Examples.alice_db_socket Trials.write_fails Examples.bob 2%N
                (match Persistent.createOrFindPrivateRoom 1%N 2%N
                         (Persistent.db Trials.write_fails) with
                 | inr (_, d) => d
                 | inl _ => Persistent.db Trials.write_fails
                 end)
                RoomManager.PersistenceError RoomManager.PersistenceError)
    as [_ Hprivate].
  split.
  - rewrite Hgroup; [reflexivity | vm_compute; reflexivity | vm_compute; reflexivity].
  - rewrite Hprivate; [reflexivity | vm_compute; reflexivity
                       | vm_compute; reflexivity | vm_compute; reflexivity].
Defined.

(** X23, witness: on a database whose member read fails, Bob's group
    message is stored and Bob is told that sending failed. *)
Lemma stored_but_not_delivered_witness :
  ∃ s',
    Persistent.send_group "10:00" 1%N "hi" None Trials.bob_db_socket
      Trials.read_fails = (Some tt, s')
    ∧ length (MemDb.messageLog (Faulty.store (Persistent.db s'))) = 1%nat
    ∧ Persistent.emitted s'
      = [Persistent.Emit "s2" (Persistent.error "Erro ao enviar mensagem")].
Proof.
  eexists. split; [|split].
  - apply (stored_but_not_delivered "10:00" 1%N "hi" None Trials.bob_db_socket
             Trials.read_fails 1%N
             {| Faulty.store :=
                  {| MemDb.accounts := MemDb.accounts Examples.database;
                     MemDb.roomStore := MemDb.roomStore Examples.database;
                     MemDb.messageLog :=
                       [(1%N, {| Persistent.room_id := 1%N;
                                 Persistent.user_id := 2%N;
                                 Persistent.content := "hi";
                                 Persistent.message_type := Persistent.text;
                                 Persistent.file_data := None |})] |};
                Faulty.create_fails := false; Faulty.members_fail := true |}
             RoomManager.PersistenceError);
      vm_compute; reflexivity.
  - reflexivity.
  - reflexivity.
Defined.

(** X24, witness: Alice writes to Bob, who is connected, with an empty
    [fileData]: the message is stored as a text message without file
    data, Bob receives it and Alice the acknowledgement, both with the
    [fileData] as it was sent. *)
Lemma send_private_stores_then_delivers_witness :
  ∃ payload s',
    Persistent.send_private "10:00" "bob" "hi" (Some "")
      Examples.alice_db_socket Examples.connected_state = (Some tt, s')
    ∧ Persistent.message payload = "hi"
    ∧ Persistent.fileData payload = Some ""
    ∧ (Persistent.message_type ∘ snd <$> MemDb.messageLog (Persistent.db s'))
      = [Persistent.text]
    ∧ (Persistent.file_data ∘ snd <$> MemDb.messageLog (Persistent.db s'))
      = [None]
    ∧ Persistent.emitted s'
      = [Persistent.Emit "s2" (Persistent.receive_private payload);
         Persistent.Emit "s1" (Persistent.message_sent payload)].
Proof.
  destruct (Persistent.createOrFindPrivateRoom 1%N 2%N Examples.database)
    as [e|[proom d]] eqn:Hroom; [vm_compute in Hroom; discriminate|].
  destruct (Persistent.createMessage
              (Persistent.messageData proom 1%N "hi" (Some "")) d)
    as [e|[saved d']] eqn:Hsave.
  { vm_compute in Hroom. injection Hroom as <- <-. vm_compute in Hsave.
    discriminate. }
  exists {| Persistent.p_id := saved; Persistent.from := "alice";
            Persistent.to := Some "bob"; Persistent.roomId := None;
            Persistent.message := "hi"; Persistent.fileData := Some "";
            Persistent.timestamp := "10:00";
            Persistent.type := Persistent.private |}.
  eexists. split.
  - apply (send_private_stores_then_delivers "10:00" "bob" "hi" (Some "")
             Examples.alice_db_socket Examples.connected_state Examples.bob
             proom d saved d');
      [vm_compute; reflexivity | exact Hroom | exact Hsave].
  - vm_compute in Hroom. injection Hroom as <- <-.
    vm_compute in Hsave. injection Hsave as <- <-.
    repeat split.
Defined.

(** X25, witness: Alice creates a group with two names nobody has; she is
    told that the group has her and the two names as members. *)
Lemma create_group_announces_unknown_names_witness :
  ∃ room,
    Persistent.emitted
      (Persistent.create_group "devs" ["ghost"; "nobody"]
         Examples.alice_db_socket Examples.connected_state).2
    = [Persistent.Emit "s1"
         (Persistent.group_created room "devs" ["alice"; "ghost"; "nobody"]
            "alice")].
Proof.
  destruct (Persistent.createRoom "devs" 1%N Examples.database)
    as [e|[room d1]] eqn:Hroom; [vm_compute in Hroom; discriminate|].
  destruct (Persistent.addMember room 1%N d1) as [e|[[] d2]] eqn:Hadd.
  { vm_compute in Hroom. injection Hroom as <- <-. vm_compute in Hadd.
    discriminate. }
  exists room.
  rewrite (create_group_announces_unknown_names "devs" ["ghost"; "nobody"]
             Examples.alice_db_socket Examples.connected_state room d1 d2);
    [reflexivity | exact Hroom | exact Hadd |].
  vm_compute in Hroom. injection Hroom as <- <-.
  vm_compute in Hadd. injection Hadd as <-.
  repeat constructor.
Defined.
